(** * Biquad coefficient generator: a shallow embedding of
      [scripts/gen_biquad_coeffs.py] and the properties of its pipeline.

    Number model.  The script computes with Python floats, that is with
    binary64 numbers.  It is embedded twice, statement for statement.

    [Module Binary64] is the script as the interpreter runs it: a float is
    a binary64 number of the kernel, with its rounding, its infinities and
    NaN; [int()], the conversion of an [int] to a float, [2 ** n], the
    true division and the [f] format are defined exactly; [math.sin],
    [math.cos] and the [pow] of the C library are supplied by the runtime;
    and the OverflowError, ValueError and ZeroDivisionError that float
    operations raise are part of the results.  Whatever depends on the
    range or on the rounding of floats is stated there.

    The embedding at the top level is the same code in exact arithmetic: a
    float is read as the real number it denotes, [math.sin], [math.cos],
    [math.pi] and [**] are the real functions, and only a division by zero
    raises.  The properties of the design equations, which are properties
    of the formulas, are stated there; so are those of the integer part and
    of the bit pattern, which both embeddings compute alike from the
    product [val * scale] (see [to_fixed_refines]).

    A Python [int] is an unbounded integer, [Z]. *)

From Stdlib Require Import Reals Lra Lia ZArith String Ascii List Bool.
From Stdlib Require Floats.
Import ListNotations.

#[local] Set Warnings "-register-all".

Local Open Scope Z_scope.

(** ** The Python operations the script relies on *)

Module Py.

(** The exceptions the script can meet. *)
Inductive exn : Type :=
| ZeroDivisionError
| ValueError
| OverflowError
| OSError.

Inductive result (A : Type) : Type :=
| Ok (a : A)
| Raise (e : exn).

Arguments Ok {A} a.
Arguments Raise {A} e.

Definition bind {A B : Type} (m : result A) (k : A -> result B) : result B :=
  match m with
  | Ok a => k a
  | Raise e => Raise e
  end.

(** [x / y] on floats, in exact arithmetic. *)
Definition fdiv (x y : R) : result R :=
  if Req_dec_T y 0 then Raise ZeroDivisionError else Ok (x / y)%R.

(** [int(x)] on a float: the integer part, rounding toward zero. *)
Definition int_of_float (x : R) : Z :=
  if Rle_dec 0 x then Zfloor x else Zceil x.

(** [1 << n]: a negative shift count is a [ValueError]. *)
Definition lshift1 (n : Z) : result Z :=
  if n <? 0 then Raise ValueError else Ok (Z.shiftl 1 n).

(** [2 ** n] for an [int] n, as the factor of a float product: the integer
    [2^n] when [n >= 0], the float [2^n] otherwise. *)
Definition pow2 (n : Z) : R := powerRZ 2 n.

(** Digits of a non-negative integer in a base up to 16, upper case, most
    significant first. *)
Definition digit_char (d : Z) : ascii :=
  if d <? 10 then ascii_of_nat (48 + Z.to_nat d)
  else ascii_of_nat (55 + Z.to_nat d).

Fixpoint digits_fuel (fuel : nat) (base n : Z) (acc : string) : string :=
  match fuel with
  | O => acc
  | S k =>
      let acc' := String (digit_char (n mod base)) acc in
      if n <? base then acc' else digits_fuel k base (n / base) acc'
  end.

Definition digits (base n : Z) : string :=
  digits_fuel (S (Z.to_nat (Z.log2 n))) base n EmptyString.

Fixpoint replicate (n : nat) (c : ascii) : string :=
  match n with
  | O => EmptyString
  | S k => String c (replicate k c)
  end.

(** Left padding of [s] with [c] up to [w] characters. *)
Definition pad_left (c : ascii) (w : Z) (s : string) : string :=
  (replicate (Z.to_nat w - String.length s) c ++ s)%string.

(** [str(n)] and [format(n, "d")]. *)
Definition str_int (n : Z) : string :=
  if n <? 0 then String "-"%char (digits 10 (- n)) else digits 10 n.

(** [format(n, "0{w}X")]: upper-case hexadecimal, zero-padded after the
    sign to a total of at least [w] characters. *)
Definition format_0X (w : Z) (n : Z) : string :=
  if n <? 0 then String "-"%char (pad_left "0"%char (w - 1) (digits 16 (- n)))
  else pad_left "0"%char w (digits 16 n).

(** Rounding to the nearest integer, ties to even: the rounding of a
    fixed-precision float format. *)
Definition round_half_even (x : R) : Z :=
  let f := Zfloor x in
  let d := (x - IZR f)%R in
  if Rlt_dec d (1 / 2) then f
  else if Rlt_dec (1 / 2) d then f + 1
  else if Z.even f then f else f + 1.

(** The text of a fixed-point rendering with [p] decimals, from the sign
    and the magnitude scaled by [10^p] and rounded: sign, integer part and,
    for [p > 0], a point and [p] decimals, right-aligned in at least [w]
    characters. *)
Definition fixed_text (w : Z) (p : nat) (negative : bool) (m : Z) : string :=
  let ip := m / 10 ^ Z.of_nat p in
  let fp := m mod 10 ^ Z.of_nat p in
  let body :=
    match p with
    | O => str_int m
    | S _ =>
        (str_int ip ++ "." ++ pad_left "0"%char (Z.of_nat p) (digits 10 fp))%string
    end in
  pad_left " "%char w (if negative then String "-"%char body else body).

(** [format(x, "{w}.{p}f")]. *)
Definition format_f (w : Z) (p : nat) (x : R) : string :=
  fixed_text w p
    (if Rlt_dec x 0 then true else false)
    (round_half_even (Rabs x * IZR (10 ^ Z.of_nat p))).

End Py.

Notation "x <- m ;; k" := (Py.bind m (fun x => k))
  (at level 61, m at next level, right associativity).

Import Py.

(** A coefficient set: the 5-tuple [(b0, b1, b2, a1, a2)] every design
    method returns. *)
Definition Coeffs : Type := (R * R * R * R * R)%type.

(** ** class BiquadCoeffGenerator, in exact arithmetic *)

Module BiquadCoeffGenerator.

Record t : Type := mk { sample_rate : R }.

Local Open Scope R_scope.

(** [_normalize]: every coefficient divided by [a0]. *)
Definition _normalize (b0 b1 b2 a0 a1 a2 : R) : result Coeffs :=
  nb0 <- fdiv b0 a0 ;;
  nb1 <- fdiv b1 a0 ;;
  nb2 <- fdiv b2 a0 ;;
  na1 <- fdiv a1 a0 ;;
  na2 <- fdiv a2 a0 ;;
  Ok (nb0, nb1, nb2, na1, na2).

Definition lowpass (self : t) (freq q : R) : result Coeffs :=
  omega <- fdiv (2 * PI * freq) (sample_rate self) ;;
  let sin_omega := sin omega in
  let cos_omega := cos omega in
  alpha <- fdiv sin_omega (2 * q) ;;
  let b0 := (1 - cos_omega) / 2 in
  let b1 := 1 - cos_omega in
  let b2 := (1 - cos_omega) / 2 in
  let a0 := 1 + alpha in
  let a1 := -2 * cos_omega in
  let a2 := 1 - alpha in
  _normalize b0 b1 b2 a0 a1 a2.

Definition highpass (self : t) (freq q : R) : result Coeffs :=
  omega <- fdiv (2 * PI * freq) (sample_rate self) ;;
  let sin_omega := sin omega in
  let cos_omega := cos omega in
  alpha <- fdiv sin_omega (2 * q) ;;
  let b0 := (1 + cos_omega) / 2 in
  let b1 := - (1 + cos_omega) in
  let b2 := (1 + cos_omega) / 2 in
  let a0 := 1 + alpha in
  let a1 := -2 * cos_omega in
  let a2 := 1 - alpha in
  _normalize b0 b1 b2 a0 a1 a2.

Definition bandpass (self : t) (freq q : R) : result Coeffs :=
  omega <- fdiv (2 * PI * freq) (sample_rate self) ;;
  let sin_omega := sin omega in
  let cos_omega := cos omega in
  alpha <- fdiv sin_omega (2 * q) ;;
  let b0 := sin_omega / 2 in
  let b1 := 0 in
  let b2 := - sin_omega / 2 in
  let a0 := 1 + alpha in
  let a1 := -2 * cos_omega in
  let a2 := 1 - alpha in
  _normalize b0 b1 b2 a0 a1 a2.

Definition bandstop (self : t) (freq q : R) : result Coeffs :=
  omega <- fdiv (2 * PI * freq) (sample_rate self) ;;
  let sin_omega := sin omega in
  let cos_omega := cos omega in
  alpha <- fdiv sin_omega (2 * q) ;;
  let b0 := 1 in
  let b1 := -2 * cos_omega in
  let b2 := 1 in
  let a0 := 1 + alpha in
  let a1 := -2 * cos_omega in
  let a2 := 1 - alpha in
  _normalize b0 b1 b2 a0 a1 a2.

Definition peaking (self : t) (freq q gain_db : R) : result Coeffs :=
  omega <- fdiv (2 * PI * freq) (sample_rate self) ;;
  let sin_omega := sin omega in
  let cos_omega := cos omega in
  let A := Rpower 10 (gain_db / 40) in
  alpha <- fdiv sin_omega (2 * q) ;;
  let b0 := 1 + alpha * A in
  let b1 := -2 * cos_omega in
  let b2 := 1 - alpha * A in
  alpha_A <- fdiv alpha A ;;
  let a0 := 1 + alpha_A in
  let a1 := -2 * cos_omega in
  alpha_A' <- fdiv alpha A ;;
  let a2 := 1 - alpha_A' in
  _normalize b0 b1 b2 a0 a1 a2.

End BiquadCoeffGenerator.

(** ** JSON values, as [json.dumps] receives them *)

(** A number that argparse hands over: an [int] default or a parsed
    [float]. *)
Inductive num : Type :=
| Int (z : Z)
| Float (x : R).

Definition num_val (n : num) : R :=
  match n with
  | Int z => IZR z
  | Float x => x
  end.

Inductive json : Type :=
| JNull
| JInt (z : Z)
| JFloat (x : R)
| JStr (s : string)
| JList (l : list json)
| JObj (fields : list (string * json)).

Definition json_of_num (n : num) : json :=
  match n with
  | Int z => JInt z
  | Float x => JFloat x
  end.

(** Lookup in a dict kept in insertion order. *)
Fixpoint dict_get (k : string) (d : list (string * json)) : option json :=
  match d with
  | [] => None
  | (k', v) :: d' => if String.eqb k k' then Some v else dict_get k d'
  end.

(** What the interpreter and its library supply: [str] of a float,
    [json.dumps(_, indent=2)], and whether [open(path, 'w')] succeeds. *)
Record Runtime : Type := {
  float_str : R -> string;
  json_dumps : json -> string;
  can_open : string -> bool
}.

Definition nl : string := String (ascii_of_nat 10) EmptyString.

(** ** class CoeffFormatter, in exact arithmetic *)

Module CoeffFormatter.

Local Open Scope string_scope.

(** The closure [to_fixed] of [to_verilog], with the [width] and [scale]
    it captures: [int(val * scale) & ((1 << width) - 1)]. *)
Definition to_fixed (width frac_bits : Z) (val : R) : result Z :=
  let scale := pow2 frac_bits in
  let raw := int_of_float (val * scale) in
  m <- lshift1 width ;;
  Ok (Z.land raw (m - 1)).

(** The hexadecimal field of one parameter line,
    [{to_fixed(v):0{width//4}X}]. *)
Definition hex_field (width frac_bits : Z) (v : R) : result string :=
  p <- to_fixed width frac_bits v ;;
  Ok (format_0X (width / 4) p).

(** One [parameter] line of the Verilog block. *)
Definition param_line (name : string) (width frac_bits : Z) (v : R)
  : result string :=
  h <- hex_field width frac_bits v ;;
  Ok ("parameter " ++ name ++ " = " ++ str_int width ++ "'h" ++ h
      ++ "; // " ++ format_f 8 6 v).

Definition to_verilog (coeffs : Coeffs) (width frac_bits : Z)
  : result string :=
  let '(b0, b1, b2, a1, a2) := coeffs in
  let header :=
    "// Biquad Filter Coefficients (Q" ++ str_int frac_bits ++ "."
    ++ str_int (width - frac_bits - 1) ++ ")" in
  l0 <- param_line "B0" width frac_bits b0 ;;
  l1 <- param_line "B1" width frac_bits b1 ;;
  l2 <- param_line "B2" width frac_bits b2 ;;
  l3 <- param_line "A1" width frac_bits a1 ;;
  l4 <- param_line "A2" width frac_bits a2 ;;
  Ok (header ++ nl ++ l0 ++ nl ++ l1 ++ nl ++ l2 ++ nl ++ l3 ++ nl ++ l4).

Definition to_c (coeffs : Coeffs) : string :=
  let '(b0, b1, b2, a1, a2) := coeffs in
  "// Biquad Filter Coefficients" ++ nl
  ++ "const float b_coeffs[3] = {" ++ format_f 12 9 b0 ++ ", "
  ++ format_f 12 9 b1 ++ ", " ++ format_f 12 9 b2 ++ "};" ++ nl
  ++ "const float a_coeffs[2] = {" ++ format_f 12 9 a1 ++ ", "
  ++ format_f 12 9 a2 ++ "};".

Definition to_matlab (coeffs : Coeffs) : string :=
  let '(b0, b1, b2, a1, a2) := coeffs in
  "% Biquad Filter Coefficients" ++ nl
  ++ "b = [" ++ format_f 12 9 b0 ++ ", " ++ format_f 12 9 b1 ++ ", "
  ++ format_f 12 9 b2 ++ "];" ++ nl
  ++ "a = [1.0, " ++ format_f 12 9 a1 ++ ", " ++ format_f 12 9 a2 ++ "];".

(** The dict [data] that [to_json] hands to [json.dumps]; a [metadata]
    that is [None] or empty is falsy and left out. *)
Definition to_json_data (coeffs : Coeffs)
    (metadata : option (list (string * json))) : json :=
  let '(b0, b1, b2, a1, a2) := coeffs in
  let data :=
    [("coefficients",
      JObj [("b", JList [JFloat b0; JFloat b1; JFloat b2]);
            ("a", JList [JFloat 1; JFloat a1; JFloat a2])])] in
  match metadata with
  | Some (f :: fs) => JObj (data ++ [("metadata", JObj (f :: fs))])
  | _ => JObj data
  end.

Definition to_json (rt : Runtime) (coeffs : Coeffs)
    (metadata : option (list (string * json))) : string :=
  json_dumps rt (to_json_data coeffs metadata).

End CoeffFormatter.

(** ** main, in exact arithmetic *)

Inductive FilterType : Type := lowpass | highpass | bandpass | bandstop | peaking.

Inductive OutputFormat : Type := verilog | c | matlab | json_format.

Definition filter_type_name (t : FilterType) : string :=
  match t with
  | lowpass => "lowpass"
  | highpass => "highpass"
  | bandpass => "bandpass"
  | bandstop => "bandstop"
  | peaking => "peaking"
  end.

(** The namespace [args] that [parse_args] returns. *)
Record Args : Type := {
  filter_type : FilterType;
  freq : R;
  sample_rate : num;
  q : R;
  gain : R;
  output : OutputFormat;
  file : option string;
  width : Z;
  frac_bits : Z
}.

(** How an invocation ends: the process exits with a status after writing
    to its streams and possibly to a file, or an exception reaches the top
    level (the interpreter prints a traceback and exits with status 1). *)
Inductive outcome : Type :=
| Exit (code : Z) (stdout stderr : string) (written : option (string * string))
| Uncaught (e : exn).

Definition exit_code (o : outcome) : Z :=
  match o with
  | Exit code _ _ _ => code
  | Uncaught _ => 1
  end.

(** The [if]/[elif] chain over [args.filter_type]. *)
Definition design (args : Args) : result Coeffs :=
  let gen := BiquadCoeffGenerator.mk (num_val (sample_rate args)) in
  match filter_type args with
  | lowpass => BiquadCoeffGenerator.lowpass gen (freq args) (q args)
  | highpass => BiquadCoeffGenerator.highpass gen (freq args) (q args)
  | bandpass => BiquadCoeffGenerator.bandpass gen (freq args) (q args)
  | bandstop => BiquadCoeffGenerator.bandstop gen (freq args) (q args)
  | peaking => BiquadCoeffGenerator.peaking gen (freq args) (q args) (gain args)
  end.

(** The dict [metadata] built in [main]. *)
Definition make_metadata (args : Args) : list (string * json) :=
  [("filter_type", JStr (filter_type_name (filter_type args)));
   ("frequency", JFloat (freq args));
   ("sample_rate", json_of_num (sample_rate args));
   ("q_factor", JFloat (q args));
   ("gain_db", match filter_type args with
               | peaking => JFloat (gain args)
               | _ => JNull
               end)]%string.

(** The [if]/[elif] chain over [args.output]. *)
Definition format_output (rt : Runtime) (args : Args) (coeffs : Coeffs)
  : result string :=
  match output args with
  | verilog => CoeffFormatter.to_verilog coeffs (width args) (frac_bits args)
  | c => Ok (CoeffFormatter.to_c coeffs)
  | matlab => Ok (CoeffFormatter.to_matlab coeffs)
  | json_format => Ok (CoeffFormatter.to_json rt coeffs (Some (make_metadata args)))
  end.

(** [if args.file:] is taken for a path that is given and not empty. *)
Definition file_given (f : option string) : option string :=
  match f with
  | Some (String a s) => Some (String a s)
  | _ => None
  end.

(** Comparisons of floats, as the conditions of [main] use them. *)
Definition fle (x y : R) : bool := if Rle_dec x y then true else false.
Definition fge (x y : R) : bool := if Rge_dec x y then true else false.

Definition main (rt : Runtime) (args : Args) : outcome :=
  if fle (freq args) 0 || fge (freq args) (num_val (sample_rate args) / 2) then
    Exit 1 EmptyString ("Error: Frequency must be between 0 and "
               ++ float_str rt (num_val (sample_rate args) / 2) ++ " Hz" ++ nl)
         None
  else if fle (q args) 0 then
    Exit 1 EmptyString ("Error: Q factor must be positive" ++ nl) None
  else
    match design args with
    | Raise e => Uncaught e
    | Ok coeffs =>
        match format_output rt args coeffs with
        | Raise e => Uncaught e
        | Ok text =>
            match file_given (file args) with
            | Some path =>
                if can_open rt path then
                  Exit 0 ("Coefficients written to " ++ path ++ nl) EmptyString
                       (Some (path, text))
                else Uncaught OSError
            | None => Exit 0 (text ++ nl) EmptyString None
            end
        end
    end.

(** ** Definitions the properties are stated with *)

(** The specification's decoding of a [width]-bit pattern as a
    two's-complement integer (its wraparound law; the script itself never
    decodes), and the re-encoding with the mask of [to_fixed]. *)
Definition twos_complement_decode (width p : Z) : Z :=
  if p <? 2 ^ (width - 1) then p else p - 2 ^ width.

Definition twos_complement_encode (width n : Z) : Z :=
  Z.land n (2 ^ width - 1).

(** The tolerance of the DC properties, 1e-9. *)
Definition tolerance : R := (1 / 1000000000)%R.

(** Replacing [--gain] in an invocation. *)
Definition with_gain (args : Args) (g : R) : Args :=
  {| filter_type := filter_type args;
     freq := freq args;
     sample_rate := sample_rate args;
     q := q args;
     gain := g;
     output := output args;
     file := file args;
     width := width args;
     frac_bits := frac_bits args |}.

(** [--freq 1000] with every other option at its default. *)
Definition default_args : Args :=
  {| filter_type := lowpass;
     freq := 1000;
     sample_rate := Int 48000;
     q := 707 / 1000;
     gain := 0;
     output := verilog;
     file := None;
     width := 18;
     frac_bits := 16 |}.

(** [--freq 1000 --output json]. *)
Definition json_args : Args :=
  {| filter_type := lowpass;
     freq := 1000;
     sample_rate := Int 48000;
     q := 707 / 1000;
     gain := 0;
     output := json_format;
     file := None;
     width := 18;
     frac_bits := 16 |}.

(** A runtime to instantiate the statements below at concrete
    invocations; they hold for every runtime.  Floats are shown with one
    decimal, the serializer is left blank, every path can be opened. *)
Definition sample_runtime : Runtime :=
  {| float_str := format_f 0 1;
     json_dumps := fun _ => EmptyString;
     can_open := fun _ => true |}.

(** ** The frequency response of a coefficient set *)

(** A coefficient set stands for the transfer function
    H(z) = (b0 + b1 z^-1 + b2 z^-2) / (1 + a1 z^-1 + a2 z^-2).  On the unit
    circle, z = e^(jw), numerator and denominator are the complex numbers
    with the real and imaginary parts below. *)
Definition num_re (k : Coeffs) (w : R) : R :=
  let '(b0, b1, b2, a1, a2) := k in (b0 + b1 * cos w + b2 * cos (2 * w))%R.

Definition num_im (k : Coeffs) (w : R) : R :=
  let '(b0, b1, b2, a1, a2) := k in (- (b1 * sin w + b2 * sin (2 * w)))%R.

Definition den_re (k : Coeffs) (w : R) : R :=
  let '(b0, b1, b2, a1, a2) := k in (1 + a1 * cos w + a2 * cos (2 * w))%R.

Definition den_im (k : Coeffs) (w : R) : R :=
  let '(b0, b1, b2, a1, a2) := k in (- (a1 * sin w + a2 * sin (2 * w)))%R.

(** [H(e^(jw)) = hr + j hi]: the denominator is not zero and the numerator
    is the denominator times [hr + j hi]. *)
Definition has_response (k : Coeffs) (w hr hi : R) : Prop :=
  (den_re k w * den_re k w + den_im k w * den_im k w <> 0
   /\ num_re k w = hr * den_re k w - hi * den_im k w
   /\ num_im k w = hr * den_im k w + hi * den_re k w)%R.

(** Replacing [--width] and [--frac-bits], or [--file], in an invocation. *)
Definition with_width (args : Args) (w f : Z) : Args :=
  {| filter_type := filter_type args;
     freq := freq args;
     sample_rate := sample_rate args;
     q := q args;
     gain := gain args;
     output := output args;
     file := file args;
     width := w;
     frac_bits := f |}.

Definition with_file (args : Args) (path : option string) : Args :=
  {| filter_type := filter_type args;
     freq := freq args;
     sample_rate := sample_rate args;
     q := q args;
     gain := gain args;
     output := output args;
     file := path;
     width := width args;
     frac_bits := frac_bits args |}.

(** ** [scripts/analyze_wav.py]: the bands of [analyze_hearing_aid_bands] *)

Module WavAnalyzer.

Local Open Scope string_scope.

(** [band_edges] and [band_names] for a file sampled at [sample_rate] (an
    [int], as [wavfile.read] returns it). *)
Definition band_edges (sample_rate : Z) : list Z :=
  [125; 250; 500; 1000; 2000; 4000; 8000; sample_rate / 2].

Definition band_names : list string :=
  ["125-250"; "250-500"; "500-1k"; "1k-2k"; "2k-4k"; "4k-8k"; "8k+"].

(** [low_freq] and [high_freq] of iteration [i] of the loop, after the
    adjustment of a [high_freq] that reaches [sample_rate // 2]. *)
Definition band_limits_at (sample_rate : Z) (i : nat) : Z * Z :=
  let low_freq := nth i (band_edges sample_rate) 0 in
  let high_freq := nth (S i) (band_edges sample_rate) 0 in
  (low_freq,
   if high_freq >=? sample_rate / 2 then sample_rate / 2 - 100 else high_freq).

(** The limits of all iterations, [i] in [range(len(band_edges) - 1)]. *)
Definition band_limits (sample_rate : Z) : list (Z * Z) :=
  map (band_limits_at sample_rate)
      (seq 0 (List.length (band_edges sample_rate) - 1)).

(** The entry [freq_range] of a band. *)
Definition freq_range (limits : Z * Z) : string :=
  str_int (fst limits) ++ "-" ++ str_int (snd limits) ++ " Hz".

(** What the band-pass design needs of the normalized edges
    [low_freq / nyquist] and [high_freq / nyquist]: 0 < low < high < 1. *)
Definition well_formed_band (sample_rate : Z) (limits : Z * Z) : Prop :=
  0 < fst limits /\ fst limits < snd limits /\ 2 * snd limits < sample_rate.

End WavAnalyzer.

(** ** The script over binary64 floats *)

Module Binary64.

Import PrimFloat SpecFloat FloatOps.

(** *** Python's float operations *)

(** The float nearest to [m * 2^e], ties to even; an infinity when that is
    beyond the range. *)
Definition of_dyadic (m e : Z) : float :=
  SF2Prim (binary_normalize prec emax m e false).

(** [float(n)] for an [int]: the conversion Python applies to the [int]
    operand of a float operation. *)
Definition float_of_int (n : Z) : result float :=
  let x := of_dyadic n 0 in
  if is_infinity x then Raise OverflowError else Ok x.

(** The integer part of a finite float, rounding toward zero. *)
Definition trunc (x : float) : Z :=
  match Prim2SF x with
  | S754_finite s m e =>
      let a := Z.shiftl (Z.pos m) e in
      if s then - a else a
  | _ => 0
  end.

(** [int(x)]. *)
Definition int_of_float (x : float) : result Z :=
  if is_nan x then Raise ValueError
  else if is_infinity x then Raise OverflowError
  else Ok (trunc x).

(** [x / y] on floats. *)
Definition fdiv (x y : float) : result float :=
  if eqb y zero then Raise ZeroDivisionError else Ok (div x y).

(** A number as argparse and the callers hand it over: an [int] or a
    [float]. *)
Inductive num : Type :=
| Int (z : Z)
| Float (x : float).

Definition to_float (n : num) : result float :=
  match n with
  | Int z => float_of_int z
  | Float x => Ok x
  end.

(** [x / n] and [x * n] for a float [x]. *)
Definition fdiv_num (x : float) (n : num) : result float :=
  y <- to_float n ;; fdiv x y.

Definition fmul_num (x : float) (n : num) : result float :=
  y <- to_float n ;; Ok (mul x y).

(** [n / 2]: the true division of an [int] is correctly rounded. *)
Definition half (n : num) : result float :=
  match n with
  | Int z =>
      let x := of_dyadic z (-1) in
      if is_infinity x then Raise OverflowError else Ok x
  | Float x => Ok (div x two)
  end.

(** [2 ** n] for an [int] n: the [int] [2^n], or, when [n] is negative,
    the float [2.0 ** float(n)], which is [2^n] rounded (0.0 from half the
    smallest subnormal, [2^-1075], downwards). *)
Definition pow2 (n : Z) : result num :=
  if 0 <=? n then Ok (Int (2 ^ n))
  else
    _ <- float_of_int n ;;
    Ok (Float (if n <? -1074 then zero else of_dyadic 1 n)).

(** [val * scale] with [scale = 2 ** frac_bits]. *)
Definition product (val : float) (frac_bits : Z) : result float :=
  scale <- pow2 frac_bits ;; fmul_num val scale.

(** [n / d] rounded to the nearest integer, ties to even, for [d > 0]. *)
Definition div_half_even (n d : Z) : Z :=
  let q := n / d in
  let r := n mod d in
  if 2 * r <? d then q
  else if d <? 2 * r then q + 1
  else if Z.even q then q else q + 1.

(** [format(x, "{w}.{p}f")]: the exact value rounded to [p] decimals. *)
Definition format_f (w : Z) (p : nat) (x : float) : string :=
  match Prim2SF x with
  | S754_nan => pad_left " "%char w "nan"
  | S754_infinity s => pad_left " "%char w (if s then "-inf" else "inf")
  | S754_zero s => fixed_text w p s 0
  | S754_finite s m e =>
      fixed_text w p s
        (if 0 <=? e then Z.pos m * 2 ^ e * 10 ^ Z.of_nat p
         else div_half_even (Z.pos m * 10 ^ Z.of_nat p) (2 ^ (- e)))
  end.

(** [math.pi]. *)
Definition pi : float := 0x1.921fb54442d18p+1%float.

Definition Coeffs : Type := (float * float * float * float * float)%type.

Inductive json : Type :=
| JNull
| JInt (z : Z)
| JFloat (x : float)
| JStr (s : string)
| JList (l : list json)
| JObj (fields : list (string * json)).

Definition json_of_num (n : num) : json :=
  match n with
  | Int z => JInt z
  | Float x => JFloat x
  end.

Fixpoint dict_get (k : string) (d : list (string * json)) : option json :=
  match d with
  | [] => None
  | (k', v) :: d' => if String.eqb k k' then Some v else dict_get k d'
  end.

(** What the interpreter and the C library supply: [sin], [cos] and [pow]
    on finite arguments, [str] of a float, [json.dumps(_, indent=2)], and
    whether [open(path, 'w')] succeeds. *)
Record Runtime : Type := {
  libm_sin : float -> float;
  libm_cos : float -> float;
  libm_pow : float -> float -> float;
  float_str : float -> string;
  json_dumps : json -> string;
  can_open : string -> bool
}.

(** [math.sin(x)] and [math.cos(x)]: a ValueError at an infinity, NaN at
    NaN. *)
Definition math_sin (rt : Runtime) (x : float) : result float :=
  if is_infinity x then Raise ValueError
  else Ok (if is_nan x then nan else libm_sin rt x).

Definition math_cos (rt : Runtime) (x : float) : result float :=
  if is_infinity x then Raise ValueError
  else Ok (if is_nan x then nan else libm_cos rt x).

(** [10.0 ** y]: an OverflowError when the result is beyond the range; a
    result that underflows is 0.0. *)
Definition pow10 (rt : Runtime) (y : float) : result float :=
  if eqb y zero then Ok one
  else if is_nan y then Ok nan
  else if is_infinity y then Ok (if ltb zero y then infinity else zero)
  else
    let r := libm_pow rt 10%float y in
    if is_infinity r then Raise OverflowError else Ok r.

Local Open Scope float_scope.

(** *** class BiquadCoeffGenerator *)

Module BiquadCoeffGenerator.

Record t : Type := mk { sample_rate : num }.

Definition _normalize (b0 b1 b2 a0 a1 a2 : float) : result Coeffs :=
  nb0 <- fdiv b0 a0 ;;
  nb1 <- fdiv b1 a0 ;;
  nb2 <- fdiv b2 a0 ;;
  na1 <- fdiv a1 a0 ;;
  na2 <- fdiv a2 a0 ;;
  Ok (nb0, nb1, nb2, na1, na2).

Definition lowpass (rt : Runtime) (self : t) (freq q : float) : result Coeffs :=
  omega <- fdiv_num (2 * pi * freq) (sample_rate self) ;;
  sin_omega <- math_sin rt omega ;;
  cos_omega <- math_cos rt omega ;;
  alpha <- fdiv sin_omega (2 * q) ;;
  let b0 := (1 - cos_omega) / 2 in
  let b1 := 1 - cos_omega in
  let b2 := (1 - cos_omega) / 2 in
  let a0 := 1 + alpha in
  let a1 := -2 * cos_omega in
  let a2 := 1 - alpha in
  _normalize b0 b1 b2 a0 a1 a2.

Definition highpass (rt : Runtime) (self : t) (freq q : float) : result Coeffs :=
  omega <- fdiv_num (2 * pi * freq) (sample_rate self) ;;
  sin_omega <- math_sin rt omega ;;
  cos_omega <- math_cos rt omega ;;
  alpha <- fdiv sin_omega (2 * q) ;;
  let b0 := (1 + cos_omega) / 2 in
  let b1 := - (1 + cos_omega) in
  let b2 := (1 + cos_omega) / 2 in
  let a0 := 1 + alpha in
  let a1 := -2 * cos_omega in
  let a2 := 1 - alpha in
  _normalize b0 b1 b2 a0 a1 a2.

Definition bandpass (rt : Runtime) (self : t) (freq q : float) : result Coeffs :=
  omega <- fdiv_num (2 * pi * freq) (sample_rate self) ;;
  sin_omega <- math_sin rt omega ;;
  cos_omega <- math_cos rt omega ;;
  alpha <- fdiv sin_omega (2 * q) ;;
  let b0 := sin_omega / 2 in
  let b1 := 0 in
  let b2 := - sin_omega / 2 in
  let a0 := 1 + alpha in
  let a1 := -2 * cos_omega in
  let a2 := 1 - alpha in
  _normalize b0 b1 b2 a0 a1 a2.

Definition bandstop (rt : Runtime) (self : t) (freq q : float) : result Coeffs :=
  omega <- fdiv_num (2 * pi * freq) (sample_rate self) ;;
  sin_omega <- math_sin rt omega ;;
  cos_omega <- math_cos rt omega ;;
  alpha <- fdiv sin_omega (2 * q) ;;
  let b0 := 1 in
  let b1 := -2 * cos_omega in
  let b2 := 1 in
  let a0 := 1 + alpha in
  let a1 := -2 * cos_omega in
  let a2 := 1 - alpha in
  _normalize b0 b1 b2 a0 a1 a2.

Definition peaking (rt : Runtime) (self : t) (freq q gain_db : float)
  : result Coeffs :=
  omega <- fdiv_num (2 * pi * freq) (sample_rate self) ;;
  sin_omega <- math_sin rt omega ;;
  cos_omega <- math_cos rt omega ;;
  A <- pow10 rt (gain_db / 40) ;;
  alpha <- fdiv sin_omega (2 * q) ;;
  let b0 := 1 + alpha * A in
  let b1 := -2 * cos_omega in
  let b2 := 1 - alpha * A in
  alpha_A <- fdiv alpha A ;;
  let a0 := 1 + alpha_A in
  let a1 := -2 * cos_omega in
  alpha_A' <- fdiv alpha A ;;
  let a2 := 1 - alpha_A' in
  _normalize b0 b1 b2 a0 a1 a2.

End BiquadCoeffGenerator.

(** *** class CoeffFormatter *)

Module CoeffFormatter.

Local Open Scope string_scope.

(** The closure [to_fixed] of [to_verilog], with the [width] and the
    [scale] it captures: [int(val * scale) & ((1 << width) - 1)].
    [to_verilog] evaluates [scale] once, before the first call, and nothing
    in between can raise. *)
Definition to_fixed (width frac_bits : Z) (val : float) : result Z :=
  scaled <- product val frac_bits ;;
  raw <- int_of_float scaled ;;
  m <- lshift1 width ;;
  Ok (Z.land raw (m - 1)).

Definition hex_field (width frac_bits : Z) (v : float) : result string :=
  p <- to_fixed width frac_bits v ;;
  Ok (format_0X (width / 4) p).

Definition param_line (name : string) (width frac_bits : Z) (v : float)
  : result string :=
  h <- hex_field width frac_bits v ;;
  Ok ("parameter " ++ name ++ " = " ++ str_int width ++ "'h" ++ h
      ++ "; // " ++ format_f 8 6 v).

Definition to_verilog (coeffs : Coeffs) (width frac_bits : Z)
  : result string :=
  let '(b0, b1, b2, a1, a2) := coeffs in
  let header :=
    "// Biquad Filter Coefficients (Q" ++ str_int frac_bits ++ "."
    ++ str_int (width - frac_bits - 1) ++ ")" in
  l0 <- param_line "B0" width frac_bits b0 ;;
  l1 <- param_line "B1" width frac_bits b1 ;;
  l2 <- param_line "B2" width frac_bits b2 ;;
  l3 <- param_line "A1" width frac_bits a1 ;;
  l4 <- param_line "A2" width frac_bits a2 ;;
  Ok (header ++ nl ++ l0 ++ nl ++ l1 ++ nl ++ l2 ++ nl ++ l3 ++ nl ++ l4).

Definition to_c (coeffs : Coeffs) : string :=
  let '(b0, b1, b2, a1, a2) := coeffs in
  "// Biquad Filter Coefficients" ++ nl
  ++ "const float b_coeffs[3] = {" ++ format_f 12 9 b0 ++ ", "
  ++ format_f 12 9 b1 ++ ", " ++ format_f 12 9 b2 ++ "};" ++ nl
  ++ "const float a_coeffs[2] = {" ++ format_f 12 9 a1 ++ ", "
  ++ format_f 12 9 a2 ++ "};".

Definition to_matlab (coeffs : Coeffs) : string :=
  let '(b0, b1, b2, a1, a2) := coeffs in
  "% Biquad Filter Coefficients" ++ nl
  ++ "b = [" ++ format_f 12 9 b0 ++ ", " ++ format_f 12 9 b1 ++ ", "
  ++ format_f 12 9 b2 ++ "];" ++ nl
  ++ "a = [1.0, " ++ format_f 12 9 a1 ++ ", " ++ format_f 12 9 a2 ++ "];".

Definition to_json_data (coeffs : Coeffs)
    (metadata : option (list (string * json))) : json :=
  let '(b0, b1, b2, a1, a2) := coeffs in
  let data :=
    [("coefficients",
      JObj [("b", JList [JFloat b0; JFloat b1; JFloat b2]);
            ("a", JList [JFloat 1; JFloat a1; JFloat a2])])] in
  match metadata with
  | Some (f :: fs) => JObj (data ++ [("metadata", JObj (f :: fs))])
  | _ => JObj data
  end.

Definition to_json (rt : Runtime) (coeffs : Coeffs)
    (metadata : option (list (string * json))) : string :=
  json_dumps rt (to_json_data coeffs metadata).

End CoeffFormatter.

(** *** main *)

Record Args : Type := {
  filter_type : FilterType;
  freq : float;
  sample_rate : num;
  q : float;
  gain : float;
  output : OutputFormat;
  file : option string;
  width : Z;
  frac_bits : Z
}.

Definition design (rt : Runtime) (args : Args) : result Coeffs :=
  let gen := BiquadCoeffGenerator.mk (sample_rate args) in
  match filter_type args with
  | lowpass => BiquadCoeffGenerator.lowpass rt gen (freq args) (q args)
  | highpass => BiquadCoeffGenerator.highpass rt gen (freq args) (q args)
  | bandpass => BiquadCoeffGenerator.bandpass rt gen (freq args) (q args)
  | bandstop => BiquadCoeffGenerator.bandstop rt gen (freq args) (q args)
  | peaking =>
      BiquadCoeffGenerator.peaking rt gen (freq args) (q args) (gain args)
  end.

Definition make_metadata (args : Args) : list (string * json) :=
  [("filter_type", JStr (filter_type_name (filter_type args)));
   ("frequency", JFloat (freq args));
   ("sample_rate", json_of_num (sample_rate args));
   ("q_factor", JFloat (q args));
   ("gain_db", match filter_type args with
               | peaking => JFloat (gain args)
               | _ => JNull
               end)]%string.

Definition format_output (rt : Runtime) (args : Args) (coeffs : Coeffs)
  : result string :=
  match output args with
  | verilog => CoeffFormatter.to_verilog coeffs (width args) (frac_bits args)
  | c => Ok (CoeffFormatter.to_c coeffs)
  | matlab => Ok (CoeffFormatter.to_matlab coeffs)
  | json_format =>
      Ok (CoeffFormatter.to_json rt coeffs (Some (make_metadata args)))
  end.

Inductive outcome : Type :=
| Exit (code : Z) (stdout stderr : string) (written : option (string * string))
| Uncaught (e : exn).

(** The two tests of [main]; a NaN fails every comparison and so passes
    both. *)
Definition freq_rejected (args : Args) (nyquist : float) : bool :=
  (freq args <=? 0) || (nyquist <=? freq args).

Definition q_rejected (args : Args) : bool := q args <=? 0.

Definition main (rt : Runtime) (args : Args) : outcome :=
  match half (sample_rate args) with
  | Raise e => Uncaught e
  | Ok nyquist =>
      if freq_rejected args nyquist then
        Exit 1 EmptyString
             ("Error: Frequency must be between 0 and "
              ++ float_str rt nyquist ++ " Hz" ++ nl)
             None
      else if q_rejected args then
        Exit 1 EmptyString ("Error: Q factor must be positive" ++ nl) None
      else
        match design rt args with
        | Raise e => Uncaught e
        | Ok coeffs =>
            match format_output rt args coeffs with
            | Raise e => Uncaught e
            | Ok text =>
                match file_given (file args) with
                | Some path =>
                    if can_open rt path then
                      Exit 0 ("Coefficients written to " ++ path ++ nl)
                           EmptyString (Some (path, text))
                    else Uncaught OSError
                | None => Exit 0 (text ++ nl) EmptyString None
                end
            end
        end
  end.

(** *** Definitions the binary64 properties are stated with *)

(** The real number a finite float stands for (0 for the others). *)
Definition value (x : float) : R :=
  match Prim2SF x with
  | S754_finite s m e => (IZR (if s then Z.neg m else Z.pos m) * powerRZ 2 e)%R
  | _ => 0%R
  end.

(** The five coefficients of a set, in order. *)
Definition coeff_list (k : Coeffs) : list float :=
  let '(b0, b1, b2, a1, a2) := k in [b0; b1; b2; a1; a2].

(** The product [val * scale] that [to_fixed] hands to [int] is a finite
    float: [2 ** frac_bits] converts to a float and the product neither
    overflows nor is NaN. *)
Definition quantizable (frac_bits : Z) (val : float) : bool :=
  match product val frac_bits with
  | Ok scaled => is_finite scaled
  | Raise _ => false
  end.

(** An invocation passes the two tests of [main]. *)
Definition accepted (args : Args) (nyquist : float) : bool :=
  negb (freq_rejected args nyquist) && negb (q_rejected args).

(** The C library at the arguments the examples reach (glibc on x86-64,
    where these results are the correctly rounded ones): pairs of an
    argument and the result; NaN stands for every argument not listed. *)
Definition table_lookup (table : list (float * float)) (x : float) : float :=
  match find (fun entry => eqb (fst entry) x) table with
  | Some entry => snd entry
  | None => nan
  end.

Definition sin_table : list (float * float) :=
  [(0x1.0c152382d7365p-3, 0x1.0b5150f6da2d0p-3);
   (0x1.12843cf07a12cp-13, 0x1.12843ce352fc5p-13);
   (0x1.67d07881bb1eap-30, 0x1.67d07881bb1eap-30);
   (0x1.0c152382d7365p-1, 0x1.fffffffffffffp-2)].

Definition cos_table : list (float * float) :=
  [(0x1.0c152382d7365p-3, 0x1.fb9ea92ec689bp-1);
   (0x1.12843cf07a12cp-13, 0x1.ffffffb6682a5p-1);
   (0x1.67d07881bb1eap-30, 1);
   (0x1.0c152382d7365p-1, 0x1.bb67ae8584cabp-1)].

(** [pow(10.0, y)]: at 6/40, 1e-20/40, -13000/40, 12320/40 and 12331/40. *)
Definition pow10_table : list (float * float) :=
  [(0x1.3333333333333p-3, 0x1.699c0f7e86e10p+0);
   (0x1.2e3b40a0e9b4fp-72, 1);
   (-0x1.45p+8, 0);
   (0x1.34p+8, 0x1.1ccf385ebc8a0p+1023);
   (0x1.3446666666666p+8, infinity)].

(** A runtime to instantiate the statements at concrete invocations: the
    C library of the tables, floats shown with one decimal, a blank
    serializer, every path can be opened. *)
Definition sample_runtime : Runtime :=
  {| libm_sin := table_lookup sin_table;
     libm_cos := table_lookup cos_table;
     libm_pow := fun x y => if eqb x 10 then table_lookup pow10_table y else nan;
     float_str := format_f 0 1;
     json_dumps := fun _ => EmptyString;
     can_open := fun _ => true |}.

(** [--filter-type ft --freq f --gain g --output o --width w], every other
    option at its default. *)
Definition invocation (ft : FilterType) (f g : float) (o : OutputFormat)
    (w : Z) : Args :=
  {| filter_type := ft;
     freq := f;
     sample_rate := Int 48000;
     q := 0x1.69fbe76c8b439p-1;
     gain := g;
     output := o;
     file := None;
     width := w;
     frac_bits := 16 |}.

End Binary64.

(** * Properties *)

(** ** Integer part and the two's-complement mask *)

Section Quantizer.

Lemma lshift1_nonneg (w : Z) : 0 <= w -> lshift1 w = Ok (2 ^ w).
Proof.
  intros Hw. unfold lshift1.
  destruct (Z.ltb_spec w 0) as [H | _]; [lia |].
  now rewrite Z.shiftl_1_l.
Qed.

Lemma lshift1_neg (w : Z) : w < 0 -> lshift1 w = Raise ValueError.
Proof.
  intros Hw. unfold lshift1.
  destruct (Z.ltb_spec w 0) as [_ | H]; [reflexivity | lia].
Qed.

Lemma land_mask_mod (raw w : Z) :
  0 <= w -> Z.land raw (2 ^ w - 1) = raw mod 2 ^ w.
Proof.
  intros Hw. rewrite <- Z.land_ones by assumption.
  now rewrite Z.ones_equiv, <- Z.sub_1_r.
Qed.

Lemma to_fixed_mod (w f : Z) (v : R) :
  0 <= w ->
  CoeffFormatter.to_fixed w f v
  = Ok (int_of_float (v * pow2 f) mod 2 ^ w).
Proof.
  intros Hw. unfold CoeffFormatter.to_fixed.
  rewrite (lshift1_nonneg w Hw). simpl.
  now rewrite land_mask_mod.
Qed.

(** [int] agrees with the floor on non-negative arguments and with the
    ceiling on non-positive ones. *)
Lemma int_of_float_nonneg (x : R) : (0 <= x)%R -> int_of_float x = Zfloor x.
Proof.
  intros Hx. unfold int_of_float. now destruct (Rle_dec 0 x).
Qed.

Lemma int_of_float_nonpos (x : R) : (x <= 0)%R -> int_of_float x = Zceil x.
Proof.
  intros Hx. unfold int_of_float. destruct (Rle_dec 0 x) as [H | H]; [| reflexivity].
  assert (x = 0%R) as -> by lra.
  change 0%R with (IZR 0). rewrite ZfloorZ.
  apply eq_sym, Zceil_eq. simpl. lra.
Qed.

Lemma Zceil_floor_succ (x : R) :
  (forall z, x <> IZR z) -> Zceil x = Zfloor x + 1.
Proof.
  intros Hni. apply Zceil_eq.
  pose proof (Zfloor_bound x) as [Hlo Hhi].
  rewrite plus_IZR. simpl.
  split; [| lra].
  destruct Hlo as [Hlt | Heq]; [lra |].
  exfalso. now apply (Hni (Zfloor x)).
Qed.

Lemma int_of_float_eq (x : R) (z : Z) :
  ((0 <= x -> IZR z <= x < IZR z + 1)
   /\ (x < 0 -> IZR z - 1 < x <= IZR z))%R ->
  int_of_float x = z.
Proof.
  intros [Hp Hn]. unfold int_of_float.
  destruct (Rle_dec 0 x) as [H | H].
  - apply Zfloor_eq. now apply Hp.
  - apply Zceil_eq. apply Hn. lra.
Qed.

End Quantizer.

Lemma pow2_4 : pow2 4 = 16%R.
Proof. unfold pow2. simpl. lra. Qed.

Lemma pow2_16 : pow2 16 = 65536%R.
Proof. unfold pow2. simpl. lra. Qed.

(** C1, as stated, fails: at v = -1/32 with width 8 and 4 fractional bits
    the scaled value is -1/2; the quantizer yields the pattern 0, while the
    floor of -1/2 is -1, whose pattern is 255. *)
Lemma to_fixed_is_not_floor :
  CoeffFormatter.to_fixed 8 4 (-1 / 32) = Ok 0
  /\ Z.land (Zfloor (-1 / 32 * pow2 4)) (2 ^ 8 - 1) = 255.
Proof.
  split.
  - rewrite to_fixed_mod by lia. rewrite pow2_4.
    rewrite (int_of_float_eq (-1 / 32 * 16) 0); [reflexivity |].
    simpl. split; intros; lra.
  - rewrite pow2_4. rewrite (Zfloor_eq (-1)); [reflexivity |].
    simpl. lra.
Qed.

(** C1, amended: [to_fixed] takes the integer part of [v * 2^frac_bits]
    rounding toward zero, then masks it to [width] bits: the floor for a
    non-negative scaled value, the ceiling for a non-positive one, which is
    the floor plus one when the scaled value is negative and not an
    integer. *)
Theorem to_fixed_truncates_toward_zero (v : R) (width frac_bits : Z) :
  0 <= width ->
  exists raw : Z,
    CoeffFormatter.to_fixed width frac_bits v = Ok (Z.land raw (2 ^ width - 1))
    /\ ((0 <= v * pow2 frac_bits)%R -> raw = Zfloor (v * pow2 frac_bits))
    /\ ((v * pow2 frac_bits <= 0)%R -> raw = Zceil (v * pow2 frac_bits))
    /\ ((v * pow2 frac_bits < 0)%R ->
        (forall z : Z, (v * pow2 frac_bits)%R <> IZR z) ->
        raw = Zfloor (v * pow2 frac_bits) + 1).
Proof.
  intros Hw. exists (int_of_float (v * pow2 frac_bits)).
  split; [| split; [| split]].
  - rewrite to_fixed_mod by assumption. now rewrite land_mask_mod.
  - apply int_of_float_nonneg.
  - apply int_of_float_nonpos.
  - intros Hneg Hni. rewrite int_of_float_nonpos by lra.
    now apply Zceil_floor_succ.
Qed.

(** The amended C1 at v = -1/32, width 8, 4 fractional bits. *)
Lemma to_fixed_truncates_toward_zero_witness :
  exists raw : Z,
    CoeffFormatter.to_fixed 8 4 (-1 / 32) = Ok (Z.land raw (2 ^ 8 - 1))
    /\ ((0 <= -1 / 32 * pow2 4)%R -> raw = Zfloor (-1 / 32 * pow2 4))
    /\ ((-1 / 32 * pow2 4 <= 0)%R -> raw = Zceil (-1 / 32 * pow2 4))
    /\ ((-1 / 32 * pow2 4 < 0)%R ->
        (forall z : Z, (-1 / 32 * pow2 4)%R <> IZR z) ->
        raw = Zfloor (-1 / 32 * pow2 4) + 1).
Proof.
  apply (to_fixed_truncates_toward_zero (-1 / 32) 8 4). lia.
Defined.

(** ** Length of the printed digits *)

Section Digits.

Lemma length_append (s1 s2 : string) :
  String.length (s1 ++ s2) = (String.length s1 + String.length s2)%nat.
Proof.
  induction s1 as [| a s1 IH]; simpl; [reflexivity | now rewrite IH].
Qed.

Lemma length_replicate (n : nat) (ch : ascii) :
  String.length (replicate n ch) = n.
Proof.
  induction n as [| n IH]; simpl; [reflexivity | now rewrite IH].
Qed.

Lemma length_pad_left (ch : ascii) (w : Z) (s : string) :
  String.length (pad_left ch w s) = Nat.max (Z.to_nat w) (String.length s).
Proof.
  unfold pad_left. rewrite length_append, length_replicate. lia.
Qed.

(** A number with [k + 1] digits in base [b] prints as [k + 1]
    characters, given fuel for them. *)
Lemma length_digits_fuel (b : Z) (Hb : 1 < b) :
  forall (fuel k : nat) (n : Z) (acc : string),
    b ^ Z.of_nat k <= n < b ^ (Z.of_nat k + 1) ->
    (k < fuel)%nat ->
    String.length (digits_fuel fuel b n acc) = (S k + String.length acc)%nat.
Proof.
  induction fuel as [| fuel IH]; intros k n acc Hn Hk; [lia |].
  simpl. destruct (Z.ltb_spec n b) as [Hlt | Hge].
  - destruct k as [| k]; [reflexivity |].
    exfalso. destruct Hn as [Hlo _].
    assert (b ^ 1 <= b ^ Z.of_nat (S k)) by (apply Z.pow_le_mono_r; lia).
    rewrite Z.pow_1_r in *. lia.
  - destruct k as [| k].
    + exfalso. change (Z.of_nat 0) with 0 in Hn.
      rewrite Z.add_0_l, Z.pow_1_r in Hn. lia.
    + rewrite (IH k); [simpl; lia | | lia].
      replace (Z.of_nat (S k)) with (Z.of_nat k + 1) in Hn by lia.
      destruct Hn as [Hlo Hhi].
      rewrite (Z.pow_add_r b (Z.of_nat k + 1) 1) in Hhi by lia.
      rewrite (Z.pow_add_r b (Z.of_nat k) 1) in Hlo by lia.
      rewrite Z.pow_1_r in *.
      split.
      * apply Z.div_le_lower_bound; lia.
      * apply Z.div_lt_upper_bound; lia.
Qed.

Lemma length_hex_digits (k : nat) (n : Z) :
  16 ^ Z.of_nat k <= n < 16 ^ (Z.of_nat k + 1) ->
  String.length (digits 16 n) = S k.
Proof.
  intros Hn. unfold digits.
  assert (0 < 16 ^ Z.of_nat k) as Hpos by (apply Z.pow_pos_nonneg; lia).
  rewrite (length_digits_fuel 16 ltac:(lia) _ k n EmptyString Hn).
  - simpl. lia.
  - assert (4 * Z.of_nat k <= Z.log2 n).
    { apply Z.log2_le_pow2; [lia |].
      replace 16 with (2 ^ 4) in Hn by reflexivity.
      rewrite <- Z.pow_mul_r in Hn by lia. lia. }
    lia.
Qed.

Lemma length_hex_digits_small (k : nat) (n : Z) :
  0 <= n < 16 ^ Z.of_nat k ->
  (String.length (digits 16 n) <= Nat.max 1 k)%nat.
Proof.
  revert n. induction k as [| k IH]; intros n Hn.
  - simpl in Hn. assert (n = 0) as -> by lia. simpl. lia.
  - destruct (Z_lt_le_dec n (16 ^ Z.of_nat k)) as [Hlt | Hge].
    + specialize (IH n ltac:(lia)). lia.
    + rewrite (length_hex_digits k n); [lia |].
      replace (Z.of_nat (S k)) with (Z.of_nat k + 1) in Hn by lia. lia.
Qed.

End Digits.

Section HexField.

Lemma length_digits_fuel_ge (b : Z) :
  forall (fuel : nat) (n : Z) (acc : string),
    (String.length acc <= String.length (digits_fuel fuel b n acc))%nat.
Proof.
  induction fuel as [| fuel IH]; intros n acc; simpl; [lia |].
  destruct (n <? b); simpl; [lia |].
  etransitivity; [| apply IH]. simpl. lia.
Qed.

Lemma length_digits_pos (b n : Z) : (1 <= String.length (digits b n))%nat.
Proof.
  unfold digits. simpl. destruct (n <? b); simpl; [lia |].
  etransitivity; [| apply length_digits_fuel_ge]. simpl. lia.
Qed.

Lemma pow16_pow2 (k : Z) : 0 <= k -> 16 ^ k = 2 ^ (4 * k).
Proof.
  intros Hk. change 16 with (2 ^ 4). now rewrite <- Z.pow_mul_r by lia.
Qed.

Lemma length_format_0X (w p : Z) :
  0 <= p ->
  String.length (format_0X w p)
  = Nat.max (Z.to_nat w) (String.length (digits 16 p)).
Proof.
  intros Hp. unfold format_0X.
  destruct (Z.ltb_spec p 0) as [H | _]; [lia |].
  apply length_pad_left.
Qed.

(** The field has at least [width // 4] characters. *)
Lemma length_hex_min (w p : Z) :
  0 <= p -> (Z.to_nat (w / 4) <= String.length (format_0X (w / 4) p))%nat.
Proof. intros Hp. rewrite length_format_0X by assumption. lia. Qed.

(** A pattern of [width] bits that reaches [16^(width//4)] takes one
    character more. *)
Lemma length_hex_wide (w p : Z) :
  0 < w -> 16 ^ (w / 4) <= p < 2 ^ w ->
  String.length (format_0X (w / 4) p) = S (Z.to_nat (w / 4)).
Proof.
  intros Hw [Hlo Hhi].
  assert (0 <= w / 4) as Hk by (apply Z.div_pos; lia).
  assert (0 < 16 ^ (w / 4)) by (apply Z.pow_pos_nonneg; lia).
  rewrite length_format_0X by lia.
  rewrite (length_hex_digits (Z.to_nat (w / 4)) p); [lia |].
  rewrite Z2Nat.id by assumption. split; [assumption |].
  eapply Z.lt_le_trans; [exact Hhi |].
  rewrite pow16_pow2 by lia. apply Z.pow_le_mono_r; [lia |].
  pose proof (Z.mod_pos_bound w 4 ltac:(lia)).
  pose proof (Z.div_mod w 4 ltac:(lia)). lia.
Qed.

(** A smaller pattern is padded to exactly [width // 4] characters (one,
    when [width < 4]). *)
Lemma length_hex_narrow (w p : Z) :
  0 < w -> 0 <= p < 16 ^ (w / 4) ->
  String.length (format_0X (w / 4) p) = Nat.max 1 (Z.to_nat (w / 4)).
Proof.
  intros Hw Hp.
  assert (0 <= w / 4) as Hk by (apply Z.div_pos; lia).
  rewrite length_format_0X by lia.
  pose proof (length_digits_pos 16 p).
  pose proof (length_hex_digits_small (Z.to_nat (w / 4)) p) as Hs.
  rewrite Z2Nat.id in Hs by assumption. specialize (Hs Hp). lia.
Qed.

(** A negative integer part within the [width]-bit signed range wraps
    to a pattern with the top bit set. *)
Lemma wrap_negative (w raw : Z) :
  0 < w -> - 2 ^ (w - 1) <= raw <= -1 ->
  2 ^ (w - 1) <= raw mod 2 ^ w < 2 ^ w.
Proof.
  intros Hw Hraw.
  assert (2 ^ w = 2 * 2 ^ (w - 1)) as Hdouble.
  { replace w with (w - 1 + 1) at 1 by lia.
    rewrite Z.pow_add_r by lia. rewrite Z.pow_1_r. ring. }
  assert (0 < 2 ^ (w - 1)) by (apply Z.pow_pos_nonneg; lia).
  assert (raw mod 2 ^ w = raw + 2 ^ w) as ->.
  { symmetry. apply (Z.mod_unique raw (2 ^ w) (-1)); lia. }
  lia.
Qed.

Lemma top_bit_reaches_extra_digit (w : Z) :
  0 < w -> w mod 4 <> 0 -> 16 ^ (w / 4) <= 2 ^ (w - 1).
Proof.
  intros Hw Hm.
  assert (0 <= w / 4) as Hk by (apply Z.div_pos; lia).
  rewrite pow16_pow2 by lia. apply Z.pow_le_mono_r; [lia |].
  pose proof (Z.mod_pos_bound w 4 ltac:(lia)).
  pose proof (Z.div_mod w 4 ltac:(lia)). lia.
Qed.

End HexField.

(** C10, as stated, fails in its example: at the default width 18 with 16
    fractional bits the negative coefficient -1/1000000 has the integer
    part 0, so its pattern is 0, below [2^17], and its field is the four
    characters [0000], not five. *)
Lemma negative_coefficient_short_field :
  (-1 / 1000000 < 0)%R
  /\ CoeffFormatter.to_fixed 18 16 (-1 / 1000000) = Ok 0
  /\ CoeffFormatter.hex_field 18 16 (-1 / 1000000) = Ok "0000"%string.
Proof.
  assert (CoeffFormatter.to_fixed 18 16 (-1 / 1000000) = Ok 0) as Hfix.
  { rewrite to_fixed_mod by lia. rewrite pow2_16.
    rewrite (int_of_float_eq (-1 / 1000000 * 65536) 0); [reflexivity |].
    simpl. split; intros; lra. }
  split; [lra | split; [exact Hfix |]].
  unfold CoeffFormatter.hex_field. rewrite Hfix. reflexivity.
Qed.

(** C10, amended: for a positive [width] not divisible by 4 the
    hexadecimal field of a coefficient has at least [width // 4]
    characters; it has [width // 4 + 1] of them when the wrapped pattern
    reaches [16^(width//4)], and [width // 4] (one, if that is zero) when
    it does not; a coefficient whose integer part lies in
    [[-2^(width-1), -1]] wraps to at least [2^(width-1)] and so takes the
    longer field; and for [width > 4] two coefficients of one document can
    have fields of different lengths. *)
Theorem hex_field_not_fixed_width (width frac_bits : Z) (v : R) :
  0 < width -> width mod 4 <> 0 ->
  (exists (p : Z) (h : string),
      CoeffFormatter.to_fixed width frac_bits v = Ok p
      /\ CoeffFormatter.hex_field width frac_bits v = Ok h
      /\ (Z.to_nat (width / 4) <= String.length h)%nat
      /\ (16 ^ (width / 4) <= p ->
          String.length h = S (Z.to_nat (width / 4)))
      /\ (p < 16 ^ (width / 4) ->
          String.length h = Nat.max 1 (Z.to_nat (width / 4)))
      /\ (- 2 ^ (width - 1) <= int_of_float (v * pow2 frac_bits) <= -1 ->
          2 ^ (width - 1) <= p
          /\ String.length h = S (Z.to_nat (width / 4))))
  /\ (4 < width ->
      exists (v1 v2 : R) (h1 h2 : string),
        CoeffFormatter.hex_field width frac_bits v1 = Ok h1
        /\ CoeffFormatter.hex_field width frac_bits v2 = Ok h2
        /\ String.length h1 = Z.to_nat (width / 4)
        /\ String.length h2 = S (Z.to_nat (width / 4))).
Proof.
  intros Hw Hm.
  assert (0 < 2 ^ width) as Hpos by (apply Z.pow_pos_nonneg; lia).
  assert (forall x : R,
             CoeffFormatter.hex_field width frac_bits x
             = Ok (format_0X (width / 4)
                     (int_of_float (x * pow2 frac_bits) mod 2 ^ width)))
    as Hfield.
  { intros x. unfold CoeffFormatter.hex_field.
    now rewrite to_fixed_mod by lia. }
  split.
  - set (p := int_of_float (v * pow2 frac_bits) mod 2 ^ width).
    pose proof (Z.mod_pos_bound (int_of_float (v * pow2 frac_bits))
                  (2 ^ width) Hpos) as Hb.
    fold p in Hb.
    exists p, (format_0X (width / 4) p).
    split; [apply to_fixed_mod; lia |].
    split; [apply Hfield |].
    split; [apply length_hex_min; lia |].
    split; [intros Hge; apply length_hex_wide; lia |].
    split; [intros Hlt; apply length_hex_narrow; lia |].
    intros Hraw.
    pose proof (wrap_negative width _ Hw Hraw) as Hwrap. fold p in Hwrap.
    pose proof (top_bit_reaches_extra_digit width Hw Hm).
    split; [lia |]. apply length_hex_wide; lia.
  - intros H4.
    assert ((pow2 frac_bits <> 0)%R) as Hnz
        by (apply powerRZ_NOR; lra).
    exists 0%R, (- / pow2 frac_bits)%R.
    eexists. eexists.
    split; [apply Hfield |]. split; [apply Hfield |].
    replace (0 * pow2 frac_bits)%R with 0%R by ring.
    replace (- / pow2 frac_bits * pow2 frac_bits)%R with (-1)%R
      by (field; exact Hnz).
    rewrite (int_of_float_eq 0 0) by (simpl; split; intros; lra).
    rewrite (int_of_float_eq (-1) (-1)) by (simpl; split; intros; lra).
    assert (1 <= width / 4) by (apply Z.div_le_lower_bound; lia).
    assert (0 < 16 ^ (width / 4)) by (apply Z.pow_pos_nonneg; lia).
    split.
    + rewrite Z.mod_0_l by lia.
      rewrite length_hex_narrow by lia. lia.
    + assert (0 < 2 ^ (width - 1)) by (apply Z.pow_pos_nonneg; lia).
      assert (- 2 ^ (width - 1) <= -1 <= -1) as Hraw by lia.
      pose proof (wrap_negative width _ Hw Hraw).
      pose proof (top_bit_reaches_extra_digit width Hw Hm).
      apply length_hex_wide; lia.
Qed.

(** The amended C10 at the default width 18 with 16 fractional bits, for
    the coefficient -1/4. *)
Lemma hex_field_not_fixed_width_witness :
  (exists (p : Z) (h : string),
      CoeffFormatter.to_fixed 18 16 (-1 / 4) = Ok p
      /\ CoeffFormatter.hex_field 18 16 (-1 / 4) = Ok h
      /\ (Z.to_nat (18 / 4) <= String.length h)%nat
      /\ (16 ^ (18 / 4) <= p -> String.length h = S (Z.to_nat (18 / 4)))
      /\ (p < 16 ^ (18 / 4) ->
          String.length h = Nat.max 1 (Z.to_nat (18 / 4)))
      /\ (- 2 ^ (18 - 1) <= int_of_float (-1 / 4 * pow2 16) <= -1 ->
          2 ^ (18 - 1) <= p
          /\ String.length h = S (Z.to_nat (18 / 4))))
  /\ (4 < 18 ->
      exists (v1 v2 : R) (h1 h2 : string),
        CoeffFormatter.hex_field 18 16 v1 = Ok h1
        /\ CoeffFormatter.hex_field 18 16 v2 = Ok h2
        /\ String.length h1 = Z.to_nat (18 / 4)
        /\ String.length h2 = S (Z.to_nat (18 / 4))).
Proof.
  apply (hex_field_not_fixed_width 18 16 (-1 / 4)); [lia | vm_compute; lia].
Defined.

(** ** The design equations *)

Section FloatArithmetic.

Local Open Scope R_scope.

Lemma fdiv_ok (x y : R) : y <> 0 -> fdiv x y = Ok (x / y).
Proof.
  intros Hy. unfold fdiv. now destruct (Req_dec_T y 0).
Qed.

Lemma normalize_ok (b0 b1 b2 a0 a1 a2 : R) :
  a0 <> 0 ->
  BiquadCoeffGenerator._normalize b0 b1 b2 a0 a1 a2
  = Ok (b0 / a0, b1 / a0, b2 / a0, a1 / a0, a2 / a0).
Proof.
  intros Ha. unfold BiquadCoeffGenerator._normalize.
  now rewrite !(fdiv_ok _ a0 Ha).
Qed.

Lemma Rpower_10_gt_1 (x : R) : 0 < x -> 1 < Rpower 10 x.
Proof.
  intros Hx. unfold Rpower. rewrite <- exp_0.
  apply exp_increasing. apply Rmult_lt_0_compat; [assumption |].
  rewrite <- ln_1. apply ln_increasing; lra.
Qed.

Lemma Rpower_10_pos (x : R) : 0 < Rpower 10 x.
Proof. unfold Rpower. apply exp_pos. Qed.

End FloatArithmetic.

(** A valid specification: [0 < freq < sample_rate / 2] and [q > 0]. *)
Section ValidSpec.

Local Open Scope R_scope.

Variables sample_rate freq q : R.
Hypothesis Hfreq : 0 < freq < sample_rate / 2.
Hypothesis Hq : 0 < q.

Local Abbreviation omega := (2 * PI * freq / sample_rate).
Local Abbreviation alpha := (sin omega / (2 * q)).
Local Abbreviation gen := (BiquadCoeffGenerator.mk sample_rate).

Lemma sample_rate_nonzero : sample_rate <> 0.
Proof. lra. Qed.

(** The digital frequency lies strictly between 0 and pi. *)
Lemma omega_range : 0 < omega < PI.
Proof.
  destruct Hfreq as [Hf Hn]. pose proof PI_RGT_0 as Hpi.
  assert (0 < sample_rate) as Hsr by lra.
  assert (0 < / sample_rate) as Hinv by now apply Rinv_0_lt_compat.
  assert (freq * / sample_rate < / 2) as Ht.
  { apply (Rmult_lt_reg_r sample_rate); [assumption |].
    rewrite Rmult_assoc, Rinv_l by lra. lra. }
  assert (0 < freq * / sample_rate) as Ht0 by now apply Rmult_lt_0_compat.
  unfold Rdiv.
  replace (2 * PI * freq * / sample_rate)
    with (2 * PI * (freq * / sample_rate)) by ring.
  split; nra.
Qed.

Lemma sin_omega_pos : 0 < sin omega.
Proof. destruct omega_range. now apply sin_gt_0. Qed.

Lemma cos_omega_range : -1 < cos omega < 1.
Proof.
  destruct omega_range as [H0 Hpi]. split.
  - rewrite <- cos_PI. apply cos_decreasing_1; lra.
  - rewrite <- cos_0. apply cos_decreasing_1; lra.
Qed.

Lemma alpha_pos : 0 < alpha.
Proof. pose proof sin_omega_pos. apply Rdiv_lt_0_compat; lra. Qed.

(** The two divisions every design method starts with succeed. *)
Lemma omega_ok : fdiv (2 * PI * freq) sample_rate = Ok omega.
Proof. apply fdiv_ok, sample_rate_nonzero. Qed.

Lemma alpha_ok : fdiv (sin omega) (2 * q) = Ok alpha.
Proof. apply fdiv_ok. lra. Qed.

(** What each design method returns. *)
Lemma lowpass_eq :
  BiquadCoeffGenerator.lowpass gen freq q
  = Ok ((1 - cos omega) / 2 / (1 + alpha),
        (1 - cos omega) / (1 + alpha),
        (1 - cos omega) / 2 / (1 + alpha),
        -2 * cos omega / (1 + alpha),
        (1 - alpha) / (1 + alpha)).
Proof.
  pose proof alpha_pos as Halpha.
  unfold BiquadCoeffGenerator.lowpass. simpl BiquadCoeffGenerator.sample_rate.
  rewrite omega_ok. simpl bind. rewrite alpha_ok. simpl bind.
  now rewrite normalize_ok by lra.
Qed.

Lemma highpass_eq :
  BiquadCoeffGenerator.highpass gen freq q
  = Ok ((1 + cos omega) / 2 / (1 + alpha),
        - (1 + cos omega) / (1 + alpha),
        (1 + cos omega) / 2 / (1 + alpha),
        -2 * cos omega / (1 + alpha),
        (1 - alpha) / (1 + alpha)).
Proof.
  pose proof alpha_pos as Halpha.
  unfold BiquadCoeffGenerator.highpass. simpl BiquadCoeffGenerator.sample_rate.
  rewrite omega_ok. simpl bind. rewrite alpha_ok. simpl bind.
  now rewrite normalize_ok by lra.
Qed.

Lemma bandpass_eq :
  BiquadCoeffGenerator.bandpass gen freq q
  = Ok (sin omega / 2 / (1 + alpha),
        0 / (1 + alpha),
        - sin omega / 2 / (1 + alpha),
        -2 * cos omega / (1 + alpha),
        (1 - alpha) / (1 + alpha)).
Proof.
  pose proof alpha_pos as Halpha.
  unfold BiquadCoeffGenerator.bandpass. simpl BiquadCoeffGenerator.sample_rate.
  rewrite omega_ok. simpl bind. rewrite alpha_ok. simpl bind.
  now rewrite normalize_ok by lra.
Qed.

Lemma bandstop_eq :
  BiquadCoeffGenerator.bandstop gen freq q
  = Ok (1 / (1 + alpha),
        -2 * cos omega / (1 + alpha),
        1 / (1 + alpha),
        -2 * cos omega / (1 + alpha),
        (1 - alpha) / (1 + alpha)).
Proof.
  pose proof alpha_pos as Halpha.
  unfold BiquadCoeffGenerator.bandstop. simpl BiquadCoeffGenerator.sample_rate.
  rewrite omega_ok. simpl bind. rewrite alpha_ok. simpl bind.
  now rewrite normalize_ok by lra.
Qed.

Lemma peaking_eq (gain_db : R) :
  BiquadCoeffGenerator.peaking gen freq q gain_db
  = Ok ((1 + alpha * Rpower 10 (gain_db / 40))
          / (1 + alpha / Rpower 10 (gain_db / 40)),
        -2 * cos omega / (1 + alpha / Rpower 10 (gain_db / 40)),
        (1 - alpha * Rpower 10 (gain_db / 40))
          / (1 + alpha / Rpower 10 (gain_db / 40)),
        -2 * cos omega / (1 + alpha / Rpower 10 (gain_db / 40)),
        (1 - alpha / Rpower 10 (gain_db / 40))
          / (1 + alpha / Rpower 10 (gain_db / 40))).
Proof.
  pose proof alpha_pos as Halpha.
  pose proof (Rpower_10_pos (gain_db / 40)) as HA.
  unfold BiquadCoeffGenerator.peaking. simpl BiquadCoeffGenerator.sample_rate.
  rewrite omega_ok. simpl bind. rewrite alpha_ok. simpl bind.
  rewrite !(fdiv_ok alpha (Rpower 10 (gain_db / 40))) by lra. simpl bind.
  assert (0 < alpha / Rpower 10 (gain_db / 40))
    by (apply Rdiv_lt_0_compat; lra).
  now rewrite normalize_ok by lra.
Qed.

(** C3, amended: in exact arithmetic, for a valid specification [lowpass]
    returns the coefficients of the design table divided by
    [a0 = 1 + alpha], and their gain at z = 1, [(b0+b1+b2)/(1+a1+a2)], is
    exactly 1, so within the tolerance (the denominator is not zero).  The
    floats the code returns miss the tolerance at low frequencies: see
    [lowpass_misses_tolerance]. *)
Theorem lowpass_dc_gain :
  exists b0 b1 b2 a1 a2 : R,
    BiquadCoeffGenerator.lowpass gen freq q = Ok (b0, b1, b2, a1, a2)
    /\ b0 = (1 - cos omega) / 2 / (1 + alpha)
    /\ b1 = (1 - cos omega) / (1 + alpha)
    /\ b2 = (1 - cos omega) / 2 / (1 + alpha)
    /\ a1 = -2 * cos omega / (1 + alpha)
    /\ a2 = (1 - alpha) / (1 + alpha)
    /\ 1 + a1 + a2 <> 0
    /\ Rabs ((b0 + b1 + b2) / (1 + a1 + a2) - 1) <= tolerance.
Proof.
  pose proof alpha_pos as Halpha. pose proof cos_omega_range as [_ Hcos].
  rewrite lowpass_eq.
  do 5 eexists. split; [reflexivity |].
  do 5 (split; [reflexivity |]).
  set (a := alpha) in *. set (c := cos omega) in *.
  assert (1 + -2 * c / (1 + a) + (1 - a) / (1 + a)
          = 2 * (1 - c) / (1 + a)) as Hden by (field; lra).
  assert ((1 - c) / 2 / (1 + a) + (1 - c) / (1 + a) + (1 - c) / 2 / (1 + a)
          = 2 * (1 - c) / (1 + a)) as Hnum by (field; lra).
  assert (0 < 2 * (1 - c) / (1 + a)) as Hpos
      by (apply Rdiv_lt_0_compat; lra).
  rewrite Hden, Hnum. split; [lra |].
  unfold Rdiv at 1. rewrite Rinv_r by lra.
  replace (1 - 1) with 0 by ring. rewrite Rabs_R0.
  unfold tolerance. lra.
Qed.


(** C7, amended: in exact arithmetic, for a valid specification and a
    positive gain, [peaking] returns coefficients whose [b0] is the
    quotient of the unnormalized [1 + alpha*A] by [a0 = 1 + alpha/A], with
    [A = 10^(gain_db/40) > 1]; the numerator exceeds the denominator and
    [b0 > 1].  On floats [A] can round to 1 or overflow: see
    [peaking_boost_lost]. *)
Theorem peaking_boost (gain_db : R) :
  0 < gain_db ->
  exists b0 b1 b2 a1 a2 : R,
    BiquadCoeffGenerator.peaking gen freq q gain_db = Ok (b0, b1, b2, a1, a2)
    /\ 1 < Rpower 10 (gain_db / 40)
    /\ 1 + alpha * Rpower 10 (gain_db / 40)
       > 1 + alpha / Rpower 10 (gain_db / 40)
    /\ b0 = (1 + alpha * Rpower 10 (gain_db / 40))
            / (1 + alpha / Rpower 10 (gain_db / 40))
    /\ 1 < b0.
Proof.
  intros Hg. pose proof alpha_pos as Halpha.
  assert (1 < Rpower 10 (gain_db / 40)) as HA
      by (apply Rpower_10_gt_1; lra).
  rewrite peaking_eq.
  set (A := Rpower 10 (gain_db / 40)) in *. set (a := alpha) in *.
  assert (0 < a / A) as HaA by (apply Rdiv_lt_0_compat; lra).
  assert (a / A < a) as Hlt1.
  { apply (Rmult_lt_reg_r A); [lra |].
    unfold Rdiv. rewrite Rmult_assoc, Rinv_l by lra. nra. }
  assert (a < a * A) as Hlt2 by nra.
  do 5 eexists. split; [reflexivity |].
  split; [exact HA |]. split; [lra |]. split; [reflexivity |].
  apply (Rmult_lt_reg_r (1 + a / A)); [lra |].
  remember (1 + a / A) as d eqn:Hd.
  unfold Rdiv. rewrite Rmult_assoc, Rinv_l by lra. lra.
Qed.

End ValidSpec.

Section Witnesses.

Local Open Scope R_scope.

(** C3 at the specification's scenario 1: 1000 Hz at 48000 Hz, Q 0.707. *)
Lemma lowpass_dc_gain_witness :
  exists b0 b1 b2 a1 a2 : R,
    BiquadCoeffGenerator.lowpass (BiquadCoeffGenerator.mk 48000) 1000
      (707 / 1000)
    = Ok (b0, b1, b2, a1, a2)
    /\ b0 = (1 - cos (2 * PI * 1000 / 48000)) / 2
            / (1 + sin (2 * PI * 1000 / 48000) / (2 * (707 / 1000)))
    /\ b1 = (1 - cos (2 * PI * 1000 / 48000))
            / (1 + sin (2 * PI * 1000 / 48000) / (2 * (707 / 1000)))
    /\ b2 = (1 - cos (2 * PI * 1000 / 48000)) / 2
            / (1 + sin (2 * PI * 1000 / 48000) / (2 * (707 / 1000)))
    /\ a1 = -2 * cos (2 * PI * 1000 / 48000)
            / (1 + sin (2 * PI * 1000 / 48000) / (2 * (707 / 1000)))
    /\ a2 = (1 - sin (2 * PI * 1000 / 48000) / (2 * (707 / 1000)))
            / (1 + sin (2 * PI * 1000 / 48000) / (2 * (707 / 1000)))
    /\ 1 + a1 + a2 <> 0
    /\ Rabs ((b0 + b1 + b2) / (1 + a1 + a2) - 1) <= tolerance.
Proof.
  apply (lowpass_dc_gain 48000 1000 (707 / 1000)); lra.
Defined.


(** C7 at the specification's scenario 3: 1000 Hz at 48000 Hz, Q 1, 6 dB. *)
Lemma peaking_boost_witness :
  exists b0 b1 b2 a1 a2 : R,
    BiquadCoeffGenerator.peaking (BiquadCoeffGenerator.mk 48000) 1000 1 6
    = Ok (b0, b1, b2, a1, a2)
    /\ 1 < Rpower 10 (6 / 40)
    /\ 1 + sin (2 * PI * 1000 / 48000) / (2 * 1) * Rpower 10 (6 / 40)
       > 1 + sin (2 * PI * 1000 / 48000) / (2 * 1) / Rpower 10 (6 / 40)
    /\ b0 = (1 + sin (2 * PI * 1000 / 48000) / (2 * 1) * Rpower 10 (6 / 40))
            / (1 + sin (2 * PI * 1000 / 48000) / (2 * 1)
                   / Rpower 10 (6 / 40))
    /\ 1 < b0.
Proof.
  apply (peaking_boost 48000 1000 1); lra.
Defined.

End Witnesses.


(** ** The metadata and the options of the command-line driver *)

Section Metadata.

(** C5, as stated, fails: for [--freq 1000 --output json] (a lowpass) the
    metadata has the key [gain_db], bound to [None], and the dict handed
    to [json.dumps] carries that metadata. *)
Lemma lowpass_metadata_has_gain_db :
  filter_type json_args = lowpass
  /\ dict_get "gain_db" (make_metadata json_args) = Some JNull
  /\ map fst (make_metadata json_args)
     = ["filter_type"; "frequency"; "sample_rate"; "q_factor"; "gain_db"]%string.
Proof. repeat split. Qed.

(** C5, amended: the metadata of every invocation has the five keys
    [filter_type], [frequency], [sample_rate], [q_factor] and [gain_db];
    [gain_db] is bound to the gain for a peaking filter and to [None]
    (JSON null) for every other type; and [to_json] hands this metadata,
    unchanged, to the serializer under the key [metadata]. *)
Theorem metadata_gain_db (args : Args) (coeffs : Coeffs) :
  map fst (make_metadata args)
  = ["filter_type"; "frequency"; "sample_rate"; "q_factor"; "gain_db"]%string
  /\ dict_get "gain_db" (make_metadata args)
     = Some (match filter_type args with
             | peaking => JFloat (gain args)
             | _ => JNull
             end)
  /\ exists cs : json,
      CoeffFormatter.to_json_data coeffs (Some (make_metadata args))
      = JObj [("coefficients", cs); ("metadata", JObj (make_metadata args))]%string.
Proof.
  split; [reflexivity | split; [reflexivity |]].
  destruct coeffs as [[[[b0 b1] b2] a1] a2].
  eexists. reflexivity.
Qed.

End Metadata.

Section Gain.

Lemma design_ignores_gain (args : Args) (g1 g2 : R) :
  filter_type args <> peaking ->
  design (with_gain args g1) = design (with_gain args g2).
Proof.
  intros Hft. unfold design, with_gain. simpl.
  destruct (filter_type args); [reflexivity .. | contradiction].
Qed.

Lemma metadata_ignores_gain (args : Args) (g1 g2 : R) :
  filter_type args <> peaking ->
  make_metadata (with_gain args g1) = make_metadata (with_gain args g2).
Proof.
  intros Hft. unfold make_metadata, with_gain. simpl.
  destruct (filter_type args); [reflexivity .. | contradiction].
Qed.

Lemma format_output_ignores_gain
    (rt : Runtime) (args : Args) (g1 g2 : R) (coeffs : Coeffs) :
  filter_type args <> peaking ->
  format_output rt (with_gain args g1) coeffs
  = format_output rt (with_gain args g2) coeffs.
Proof.
  intros Hft. unfold format_output.
  rewrite (metadata_ignores_gain args g1 g2 Hft). reflexivity.
Qed.

(** C9: two invocations whose filter type is not peaking and that differ
    in [--gain] alone end the same way: the same exit status, the same
    text on both streams and in the file, for every output format; the
    coefficients and the metadata ([gain_db] is [None]) are the same. *)
Theorem gain_ignored_unless_peaking (rt : Runtime) (args : Args) (g1 g2 : R) :
  filter_type args <> peaking ->
  design (with_gain args g1) = design (with_gain args g2)
  /\ make_metadata (with_gain args g1) = make_metadata (with_gain args g2)
  /\ main rt (with_gain args g1) = main rt (with_gain args g2).
Proof.
  intros Hft.
  split; [now apply design_ignores_gain |].
  split; [now apply metadata_ignores_gain |].
  unfold main.
  rewrite (design_ignores_gain args g1 g2 Hft).
  change (freq (with_gain args g1)) with (freq (with_gain args g2)).
  change (sample_rate (with_gain args g1))
    with (sample_rate (with_gain args g2)).
  change (q (with_gain args g1)) with (q (with_gain args g2)).
  change (file (with_gain args g1)) with (file (with_gain args g2)).
  destruct (design (with_gain args g2)) as [coeffs | e]; [| reflexivity].
  now rewrite (format_output_ignores_gain rt args g1 g2 coeffs Hft).
Qed.

(** C9 at [--freq 1000 --output json] with the gains 0 and 6. *)
Lemma gain_ignored_unless_peaking_witness :
  design (with_gain json_args 0) = design (with_gain json_args 6)
  /\ make_metadata (with_gain json_args 0)
     = make_metadata (with_gain json_args 6)
  /\ main sample_runtime (with_gain json_args 0)
     = main sample_runtime (with_gain json_args 6).
Proof.
  apply (gain_ignored_unless_peaking sample_runtime json_args 0 6).
  simpl. discriminate.
Defined.

End Gain.

(** ** The specification's hardware-encoding scenario *)

Section Scenario.

Lemma round_half_even_IZR (z : Z) : round_half_even (IZR z) = z.
Proof.
  unfold round_half_even. rewrite ZfloorZ.
  destruct (Rlt_dec (IZR z - IZR z) (1 / 2)) as [_ | H]; [reflexivity |].
  exfalso. apply H. lra.
Qed.

Lemma format_f_nonneg (w : Z) (p : nat) (x : R) (m : Z) :
  (0 <= x)%R -> (x * IZR (10 ^ Z.of_nat p) = IZR m)%R ->
  format_f w p x = fixed_text w p false m.
Proof.
  intros Hx Hm. unfold format_f.
  rewrite Rabs_pos_eq by assumption. rewrite Hm, round_half_even_IZR.
  destruct (Rlt_dec x 0); [lra | reflexivity].
Qed.

Lemma format_f_neg (w : Z) (p : nat) (x : R) (m : Z) :
  (x < 0)%R -> (- x * IZR (10 ^ Z.of_nat p) = IZR m)%R ->
  format_f w p x = fixed_text w p true m.
Proof.
  intros Hx Hm. unfold format_f.
  rewrite Rabs_left by assumption. rewrite Hm, round_half_even_IZR.
  destruct (Rlt_dec x 0); [reflexivity | lra].
Qed.

Lemma to_fixed_exact (w f : Z) (v : R) (raw : Z) :
  0 <= w -> (v * pow2 f = IZR raw)%R ->
  CoeffFormatter.to_fixed w f v = Ok (raw mod 2 ^ w).
Proof.
  intros Hw Hraw. rewrite to_fixed_mod by assumption. rewrite Hraw.
  rewrite (int_of_float_eq (IZR raw) raw); [reflexivity |].
  split; intros; lra.
Qed.

(** Overflow wraps: at width 8 with 4 fractional bits the largest
    pattern of a positive value is 127 (0x7F); the coefficient 8 gets the
    pattern 128, which reads back as -128, and 16 gets 0. *)
Example to_fixed_wraps :
  CoeffFormatter.to_fixed 8 4 8 = Ok 128
  /\ twos_complement_decode 8 128 = -128
  /\ CoeffFormatter.to_fixed 8 4 16 = Ok 0.
Proof.
  rewrite (to_fixed_exact 8 4 8 128) by (rewrite ?pow2_4; simpl; lra || lia).
  rewrite (to_fixed_exact 8 4 16 256) by (rewrite ?pow2_4; simpl; lra || lia).
  repeat split.
Qed.

(** The specification's scenario 5: the coefficient set
    (0.5, -0.25, 0.125, -1.0, 0.5) at width 8 with 4 fractional bits. *)
Example to_verilog_scenario :
  CoeffFormatter.to_verilog (1 / 2, -1 / 4, 1 / 8, -1, 1 / 2)%R 8 4
  = Ok ("// Biquad Filter Coefficients (Q4.3)" ++ nl
        ++ "parameter B0 = 8'h08; // 0.500000" ++ nl
        ++ "parameter B1 = 8'hFC; // -0.250000" ++ nl
        ++ "parameter B2 = 8'h02; // 0.125000" ++ nl
        ++ "parameter A1 = 8'hF0; // -1.000000" ++ nl
        ++ "parameter A2 = 8'h08; // 0.500000")%string.
Proof.
  unfold CoeffFormatter.to_verilog, CoeffFormatter.param_line,
    CoeffFormatter.hex_field.
  rewrite (to_fixed_exact 8 4 (1 / 2) 8) by (rewrite ?pow2_4; simpl; lra || lia).
  rewrite (to_fixed_exact 8 4 (-1 / 4) (-4))
    by (rewrite ?pow2_4; simpl; lra || lia).
  rewrite (to_fixed_exact 8 4 (1 / 8) 2) by (rewrite ?pow2_4; simpl; lra || lia).
  rewrite (to_fixed_exact 8 4 (-1) (-16))
    by (rewrite ?pow2_4; simpl; lra || lia).
  rewrite (format_f_nonneg 8 6 (1 / 2) 500000) by (simpl; lra).
  rewrite (format_f_neg 8 6 (-1 / 4) 250000) by (simpl; lra).
  rewrite (format_f_nonneg 8 6 (1 / 8) 125000) by (simpl; lra).
  rewrite (format_f_neg 8 6 (-1) 1000000) by (simpl; lra).
  reflexivity.
Qed.

(** The same coefficient set at the default width 18 with 16 fractional
    bits: the fields of the negative coefficients have five digits, the
    others four. *)
Example to_verilog_default_width :
  CoeffFormatter.to_verilog (1 / 2, -1 / 4, 1 / 8, -1, 1 / 2)%R 18 16
  = Ok ("// Biquad Filter Coefficients (Q16.1)" ++ nl
        ++ "parameter B0 = 18'h8000; // 0.500000" ++ nl
        ++ "parameter B1 = 18'h3C000; // -0.250000" ++ nl
        ++ "parameter B2 = 18'h2000; // 0.125000" ++ nl
        ++ "parameter A1 = 18'h30000; // -1.000000" ++ nl
        ++ "parameter A2 = 18'h8000; // 0.500000")%string.
Proof.
  unfold CoeffFormatter.to_verilog, CoeffFormatter.param_line,
    CoeffFormatter.hex_field.
  rewrite (to_fixed_exact 18 16 (1 / 2) 32768)
    by (rewrite ?pow2_16; simpl; lra || lia).
  rewrite (to_fixed_exact 18 16 (-1 / 4) (-16384))
    by (rewrite ?pow2_16; simpl; lra || lia).
  rewrite (to_fixed_exact 18 16 (1 / 8) 8192)
    by (rewrite ?pow2_16; simpl; lra || lia).
  rewrite (to_fixed_exact 18 16 (-1) (-65536))
    by (rewrite ?pow2_16; simpl; lra || lia).
  rewrite (format_f_nonneg 8 6 (1 / 2) 500000) by (simpl; lra).
  rewrite (format_f_neg 8 6 (-1 / 4) 250000) by (simpl; lra).
  rewrite (format_f_nonneg 8 6 (1 / 8) 125000) by (simpl; lra).
  rewrite (format_f_neg 8 6 (-1) 1000000) by (simpl; lra).
  reflexivity.
Qed.

End Scenario.

(** * Further properties of the code *)

(** ** The bands of the waveform analysis *)

Section Bands.

Import WavAnalyzer.

Lemma band_limits_eq (sample_rate : Z) :
  band_limits sample_rate
  = [(125, if 250 >=? sample_rate / 2 then sample_rate / 2 - 100 else 250);
     (250, if 500 >=? sample_rate / 2 then sample_rate / 2 - 100 else 500);
     (500, if 1000 >=? sample_rate / 2 then sample_rate / 2 - 100 else 1000);
     (1000, if 2000 >=? sample_rate / 2 then sample_rate / 2 - 100 else 2000);
     (2000, if 4000 >=? sample_rate / 2 then sample_rate / 2 - 100 else 4000);
     (4000, if 8000 >=? sample_rate / 2 then sample_rate / 2 - 100 else 8000);
     (8000, sample_rate / 2 - 100)].
Proof.
  unfold band_limits, band_limits_at, band_edges.
  cbn -[Z.geb Z.div].
  destruct (Z.geb_spec (sample_rate / 2) (sample_rate / 2)); [reflexivity | lia].
Qed.

(** X1: [analyze_hearing_aid_bands] always has seven bands, one per name,
    and the last one runs from 8000 Hz to [sample_rate // 2 - 100]; every
    band has 0 < low < high below the Nyquist frequency exactly when the
    sample rate is at least 16202 Hz.  At a lower rate (8 kHz and 16 kHz
    recordings, for instance) the last band has its upper limit at or
    below its lower one. *)
Theorem band_limits_well_formed (sample_rate : Z) :
  List.length (band_limits sample_rate) = List.length band_names
  /\ nth 6 (band_limits sample_rate) (0, 0) = (8000, sample_rate / 2 - 100)
  /\ (Forall (well_formed_band sample_rate) (band_limits sample_rate)
      <-> 16202 <= sample_rate).
Proof.
  rewrite band_limits_eq. split; [reflexivity | split; [reflexivity |]].
  unfold well_formed_band. split.
  - intros H. apply Forall_forall with (x := (8000, sample_rate / 2 - 100)) in H.
    + cbn [fst snd] in H. Z.div_mod_to_equations. lia.
    + do 6 right. now left.
  - intros Hsr.
    repeat match goal with
           | |- context [?a >=? ?b] =>
               destruct (Z.geb_spec a b);
               [exfalso; Z.div_mod_to_equations; lia |]
           end.
    repeat constructor; cbn [fst snd]; Z.div_mod_to_equations; lia.
Qed.

(** The limits at 16 kHz and at 48 kHz. *)
Example band_limits_16k :
  band_limits 16000
  = [(125, 250); (250, 500); (500, 1000); (1000, 2000); (2000, 4000);
     (4000, 7900); (8000, 7900)].
Proof. reflexivity. Qed.

Example band_limits_48k :
  map freq_range (band_limits 48000)
  = ["125-250 Hz"; "250-500 Hz"; "500-1000 Hz"; "1000-2000 Hz";
     "2000-4000 Hz"; "4000-8000 Hz"; "8000-23900 Hz"]%string.
Proof. reflexivity. Qed.

End Bands.

(** ** More on the quantizer *)

Section QuantizerAccuracy.

Lemma int_of_float_opp (x : R) : int_of_float (- x) = - int_of_float x.
Proof.
  destruct (Rtotal_order x 0) as [Hneg | [-> | Hpos]].
  - rewrite int_of_float_nonneg by lra. rewrite int_of_float_nonpos by lra.
    apply ZfloorN.
  - rewrite Ropp_0. rewrite (int_of_float_eq 0 0); [reflexivity |].
    simpl; split; intros; lra.
  - rewrite (int_of_float_nonpos (- x)) by lra.
    rewrite int_of_float_nonneg by lra. apply ZceilN.
Qed.

Lemma int_of_float_bound (x : R) :
  (Rabs (IZR (int_of_float x) - x) < 1
   /\ Rabs (IZR (int_of_float x)) <= Rabs x)%R.
Proof.
  destruct (Rle_dec 0 x) as [Hx | Hx].
  - rewrite int_of_float_nonneg by assumption.
    pose proof (Zfloor_bound x) as [Hlo Hhi].
    assert (0 <= IZR (Zfloor x))%R.
    { apply IZR_le. apply Zfloor_lub. simpl. lra. }
    split.
    + apply Rabs_def1; lra.
    + rewrite !Rabs_pos_eq by lra. lra.
  - rewrite int_of_float_nonpos by lra.
    pose proof (Zceil_bound x) as [Hlo Hhi].
    assert (IZR (Zceil x) <= 0)%R.
    { apply IZR_le. unfold Zceil.
      assert (0 <= Zfloor (- x)); [| lia].
      apply Zfloor_lub. simpl. lra. }
    split.
    + apply Rabs_def1; lra.
    + rewrite !Rabs_left1 by lra. lra.
Qed.

Lemma pow2_pos (f : Z) : (0 < pow2 f)%R.
Proof. unfold pow2. apply powerRZ_lt. lra. Qed.

Lemma pow2_inverse (f : Z) : (pow2 f * pow2 (- f) = 1)%R.
Proof.
  unfold pow2. rewrite powerRZ_neg'. apply Rinv_r.
  apply powerRZ_NOR. lra.
Qed.

(** X2: a coefficient whose integer part fits the signed [width]-bit
    range is quantized without wrapping: the pattern decodes to the
    integer part, the value it stands for is within one step
    [2^-frac_bits] of the coefficient and never larger in magnitude. *)
Theorem to_fixed_in_range (width frac_bits : Z) (v : R) :
  0 < width ->
  - 2 ^ (width - 1) <= int_of_float (v * pow2 frac_bits) < 2 ^ (width - 1) ->
  exists p : Z,
    CoeffFormatter.to_fixed width frac_bits v = Ok p
    /\ twos_complement_decode width p = int_of_float (v * pow2 frac_bits)
    /\ (Rabs (IZR (twos_complement_decode width p) * pow2 (- frac_bits) - v)
        < pow2 (- frac_bits))%R
    /\ (Rabs (IZR (twos_complement_decode width p) * pow2 (- frac_bits))
        <= Rabs v)%R.
Proof.
  intros Hw Hraw.
  set (raw := int_of_float (v * pow2 frac_bits)) in *.
  assert (2 ^ width = 2 * 2 ^ (width - 1)) as Hdouble.
  { replace width with (width - 1 + 1) at 1 by lia.
    rewrite Z.pow_add_r by lia. rewrite Z.pow_1_r. ring. }
  assert (0 < 2 ^ (width - 1)) by (apply Z.pow_pos_nonneg; lia).
  assert (twos_complement_decode width (raw mod 2 ^ width) = raw) as Hdec.
  { unfold twos_complement_decode.
    destruct (Z_lt_le_dec raw 0) as [Hneg | Hpos].
    - assert (raw mod 2 ^ width = raw + 2 ^ width) as ->.
      { symmetry. apply (Z.mod_unique raw (2 ^ width) (-1)); lia. }
      destruct (Z.ltb_spec (raw + 2 ^ width) (2 ^ (width - 1))); lia.
    - rewrite Z.mod_small by lia.
      destruct (Z.ltb_spec raw (2 ^ (width - 1))); lia. }
  exists (raw mod 2 ^ width).
  split; [apply to_fixed_mod; lia |].
  rewrite Hdec. split; [reflexivity |].
  pose proof (int_of_float_bound (v * pow2 frac_bits)) as [Herr Hmag].
  fold raw in Herr, Hmag.
  pose proof (pow2_pos (- frac_bits)) as Hstep.
  pose proof (pow2_inverse frac_bits) as Hinv.
  assert (v = v * pow2 frac_bits * pow2 (- frac_bits))%R as Hv
      by (rewrite Rmult_assoc, Hinv; ring).
  split.
  - replace (IZR raw * pow2 (- frac_bits) - v)%R
      with ((IZR raw - v * pow2 frac_bits) * pow2 (- frac_bits))%R
      by (rewrite Hv at 2; ring).
    rewrite Rabs_mult, (Rabs_pos_eq (pow2 (- frac_bits))) by lra.
    rewrite <- (Rmult_1_l (pow2 (- frac_bits))) at 2.
    apply Rmult_lt_compat_r; assumption.
  - replace (Rabs v)
      with (Rabs (v * pow2 frac_bits) * pow2 (- frac_bits))%R.
    + rewrite Rabs_mult, (Rabs_pos_eq (pow2 (- frac_bits))) by lra.
      apply Rmult_le_compat_r; [lra | exact Hmag].
    + rewrite <- (Rabs_pos_eq (pow2 (- frac_bits))) at 1 by lra.
      rewrite <- Rabs_mult. now rewrite <- Hv.
Qed.

(** X2 at the coefficient -1/4, width 18, 16 fractional bits. *)
Lemma to_fixed_in_range_witness :
  exists p : Z,
    CoeffFormatter.to_fixed 18 16 (-1 / 4) = Ok p
    /\ twos_complement_decode 18 p = int_of_float (-1 / 4 * pow2 16)
    /\ (Rabs (IZR (twos_complement_decode 18 p) * pow2 (- 16) - -1 / 4)
        < pow2 (- 16))%R
    /\ (Rabs (IZR (twos_complement_decode 18 p) * pow2 (- 16))
        <= Rabs (-1 / 4))%R.
Proof.
  apply (to_fixed_in_range 18 16 (-1 / 4)); [lia |].
  rewrite pow2_16.
  rewrite (int_of_float_eq (-1 / 4 * 65536) (-16384))
    by (simpl; split; intros; lra).
  lia.
Defined.

(** X3: the quantizer is odd: the patterns of [v] and of [-v] are
    two's-complement negations of each other, their sum is 0 modulo
    [2^width] (rounding toward zero is symmetric; a floor would not be). *)
Theorem to_fixed_negation (width frac_bits : Z) (v : R) :
  0 <= width ->
  exists p p' : Z,
    CoeffFormatter.to_fixed width frac_bits v = Ok p
    /\ CoeffFormatter.to_fixed width frac_bits (- v) = Ok p'
    /\ (p + p') mod 2 ^ width = 0
    /\ p' = (- p) mod 2 ^ width.
Proof.
  intros Hw.
  assert (0 < 2 ^ width) by (apply Z.pow_pos_nonneg; lia).
  do 2 eexists.
  split; [apply to_fixed_mod; assumption |].
  split; [apply to_fixed_mod; assumption |].
  replace (- v * pow2 frac_bits)%R with (- (v * pow2 frac_bits))%R by ring.
  rewrite int_of_float_opp.
  set (raw := int_of_float (v * pow2 frac_bits)).
  split.
  - rewrite <- Z.add_mod by lia. rewrite Z.add_opp_diag_r. reflexivity.
  - replace (- (raw mod 2 ^ width)) with (0 - raw mod 2 ^ width) by lia.
    rewrite Zminus_mod_idemp_r. reflexivity.
Qed.

(** X3 at the coefficient 1/2, width 8, 4 fractional bits. *)
Lemma to_fixed_negation_witness :
  exists p p' : Z,
    CoeffFormatter.to_fixed 8 4 (1 / 2) = Ok p
    /\ CoeffFormatter.to_fixed 8 4 (- (1 / 2)) = Ok p'
    /\ (p + p') mod 2 ^ 8 = 0
    /\ p' = (- p) mod 2 ^ 8.
Proof.
  apply (to_fixed_negation 8 4 (1 / 2)). lia.
Defined.

End QuantizerAccuracy.

(** ** The responses the design methods produce *)

(** Closes an identity between rational expressions in [s] and [x] that
    holds modulo [Hsc : s * s + x * x = 1]. *)
Ltac trig_identity Hsc :=
  field_simplify_eq; [| repeat split; lra];
  match type of Hsc with
  | (?s * ?s + ?x * ?x = 1)%R =>
      try (replace (x ^ 4)%R with ((1 - s ^ 2) * (1 - s ^ 2))%R by (simpl; nra));
      try (replace (x ^ 3)%R with (x * (1 - s ^ 2))%R by (simpl; nra));
      try (replace (x ^ 2)%R with (1 - s ^ 2)%R by (simpl; lra))
  end;
  ring.

Section Denominator.

Local Open Scope R_scope.

Lemma sum_sq_nonzero (x y : R) : 0 < x -> x * x + y * y <> 0.
Proof. intros Hx. nra. Qed.

(** The denominator shared by the five methods, with [a] standing for
    [alpha] (or [alpha / A]): it does not vanish at DC, at the Nyquist
    frequency and at the design frequency. *)
Lemma denominator_nonzero (b0 b1 b2 a w : R) :
  0 < a -> 0 < sin w -> -1 < cos w < 1 ->
  forall k : Coeffs,
    k = (b0, b1, b2, -2 * cos w / (1 + a), (1 - a) / (1 + a)) ->
    den_re k 0 * den_re k 0 + den_im k 0 * den_im k 0 <> 0
    /\ den_re k PI * den_re k PI + den_im k PI * den_im k PI <> 0
    /\ den_re k w * den_re k w + den_im k w * den_im k w <> 0.
Proof.
  intros Ha Hs [Hc1 Hc2] k ->. unfold den_re, den_im.
  rewrite Rmult_0_r, cos_0, sin_0, cos_PI, sin_PI, cos_2PI, sin_2PI,
    cos_2a, sin_2a.
  pose proof (sin2_cos2 w) as Hsc. unfold Rsqr in Hsc.
  set (sw := sin w) in *. set (cw := cos w) in *. clearbody sw cw.
  split; [| split]; apply sum_sq_nonzero.
  - replace (1 + -2 * cw / (1 + a) * 1 + (1 - a) / (1 + a) * 1)
      with (2 * (1 - cw) / (1 + a)) by (field; lra).
    apply Rdiv_lt_0_compat; lra.
  - replace (1 + -2 * cw / (1 + a) * -1 + (1 - a) / (1 + a) * 1)
      with (2 * (1 + cw) / (1 + a)) by (field; lra).
    apply Rdiv_lt_0_compat; lra.
  - replace (1 + -2 * cw / (1 + a) * cw
             + (1 - a) / (1 + a) * (cw * cw - sw * sw))
      with (2 * a * (sw * sw) / (1 + a)) by trig_identity Hsc.
    apply Rdiv_lt_0_compat; [repeat apply Rmult_lt_0_compat; lra | lra].
Qed.

End Denominator.

Section Responses.

Local Open Scope R_scope.

Variables sample_rate freq q : R.
Hypothesis Hfreq : 0 < freq < sample_rate / 2.
Hypothesis Hq : 0 < q.

Local Abbreviation omega := (2 * PI * freq / sample_rate).
Local Abbreviation alpha := (sin omega / (2 * q)).
Local Abbreviation gen := (BiquadCoeffGenerator.mk sample_rate).

(** Splits the responses of the goal at DC, Nyquist or the design
    frequency into identities in [sw = sin omega], [cw = cos omega] and
    [a = alpha]; the denominators are known not to vanish. *)
Ltac response_setup a sw cw Hsc Hqa :=
  pose proof (alpha_pos sample_rate freq q Hfreq Hq) as Halpha;
  pose proof (sin_omega_pos sample_rate freq Hfreq) as Hsin;
  pose proof (cos_omega_range sample_rate freq Hfreq) as Hcos;
  match goal with
  | |- context [has_response ?k _ _ _] =>
      pose proof (denominator_nonzero _ _ _ alpha omega Halpha Hsin Hcos
                    k eq_refl) as (Hd0 & Hdpi & Hdw)
  end;
  unfold has_response;
  repeat match goal with
         | |- _ /\ _ => split
         end;
  try assumption;
  unfold num_re, num_im, den_re, den_im;
  rewrite ?Rmult_0_r, ?cos_0, ?sin_0, ?cos_PI, ?sin_PI, ?cos_2PI, ?sin_2PI,
    ?cos_2a, ?sin_2a;
  pose proof (sin2_cos2 omega) as Hsc; unfold Rsqr in Hsc;
  assert (q = sin omega / (2 * alpha)) as Hqa by (field; lra);
  destruct Hcos as [Hcos1 Hcos2];
  set (a := alpha) in *; set (sw := sin omega) in *;
  set (cw := cos omega) in *;
  clearbody a; clearbody sw cw.

(** X4: the lowpass has gain 0 at the Nyquist frequency, and at its
    cutoff frequency the response is [-jQ]: gain Q (0.707, that is -3 dB,
    at the default) with a phase of -90 degrees. *)
Theorem lowpass_response :
  exists k : Coeffs,
    BiquadCoeffGenerator.lowpass gen freq q = Ok k
    /\ has_response k PI 0 0
    /\ has_response k omega 0 (- q).
Proof.
  rewrite lowpass_eq by assumption. eexists. split; [reflexivity |].
  response_setup a sw cw Hsc Hqa; try (rewrite Hqa); trig_identity Hsc.
Qed.

(** X5: the highpass has gain 0 at DC and gain 1 at the Nyquist
    frequency, and at its cutoff frequency the response is [+jQ]. *)
Theorem highpass_response :
  exists k : Coeffs,
    BiquadCoeffGenerator.highpass gen freq q = Ok k
    /\ has_response k 0 0 0
    /\ has_response k PI 1 0
    /\ has_response k omega 0 q.
Proof.
  rewrite highpass_eq by assumption. eexists. split; [reflexivity |].
  response_setup a sw cw Hsc Hqa; try (rewrite Hqa); trig_identity Hsc.
Qed.

(** X6: the bandpass has gain 0 at DC and at the Nyquist frequency, and
    at its centre frequency the gain is Q, not 1, with no phase shift. *)
Theorem bandpass_response :
  exists k : Coeffs,
    BiquadCoeffGenerator.bandpass gen freq q = Ok k
    /\ has_response k 0 0 0
    /\ has_response k PI 0 0
    /\ has_response k omega q 0.
Proof.
  rewrite bandpass_eq by assumption. eexists. split; [reflexivity |].
  response_setup a sw cw Hsc Hqa; try (rewrite Hqa); trig_identity Hsc.
Qed.

(** X7: the bandstop has gain 1 at DC and at the Nyquist frequency and
    gain 0 at its centre frequency: the notch is exact. *)
Theorem bandstop_response :
  exists k : Coeffs,
    BiquadCoeffGenerator.bandstop gen freq q = Ok k
    /\ has_response k 0 1 0
    /\ has_response k PI 1 0
    /\ has_response k omega 0 0.
Proof.
  rewrite bandstop_eq by assumption. eexists. split; [reflexivity |].
  response_setup a sw cw Hsc Hqa; trig_identity Hsc.
Qed.

End Responses.

Section Peaking.

Local Open Scope R_scope.

Variables sample_rate freq q gain_db : R.
Hypothesis Hfreq : 0 < freq < sample_rate / 2.
Hypothesis Hq : 0 < q.

Local Abbreviation omega := (2 * PI * freq / sample_rate).
Local Abbreviation alpha := (sin omega / (2 * q)).
Local Abbreviation gen := (BiquadCoeffGenerator.mk sample_rate).

Lemma coeffs_eq (b0 b1 b2 a1 a2 b0' b1' b2' a1' a2' : R) :
  b0 = b0' -> b1 = b1' -> b2 = b2' -> a1 = a1' -> a2 = a2' ->
  Ok (b0, b1, b2, a1, a2) = Ok (b0', b1', b2', a1', a2').
Proof. now intros -> -> -> -> ->. Qed.

Lemma Rpower_10_square (x : R) :
  Rpower 10 (x / 40) * Rpower 10 (x / 40) = Rpower 10 (x / 20).
Proof. rewrite <- Rpower_plus. f_equal. field. Qed.

(** X8: the peaking filter, for any gain (boost or cut), has gain 1 at
    DC and at the Nyquist frequency, and at its centre frequency the gain
    is [10^(gain_db/20)], that is exactly [gain_db] decibels, with no phase
    shift. *)
Theorem peaking_response :
  exists k : Coeffs,
    BiquadCoeffGenerator.peaking gen freq q gain_db = Ok k
    /\ has_response k 0 1 0
    /\ has_response k PI 1 0
    /\ has_response k omega (Rpower 10 (gain_db / 20)) 0.
Proof.
  pose proof (alpha_pos sample_rate freq q Hfreq Hq) as Halpha.
  pose proof (sin_omega_pos sample_rate freq Hfreq) as Hsin.
  pose proof (cos_omega_range sample_rate freq Hfreq) as Hcos.
  pose proof (Rpower_10_pos (gain_db / 40)) as HA.
  rewrite peaking_eq by assumption. eexists. split; [reflexivity |].
  rewrite <- Rpower_10_square.
  set (A := Rpower 10 (gain_db / 40)) in *.
  assert (0 < alpha / A) as HaA by (apply Rdiv_lt_0_compat; lra).
  match goal with
  | |- context [has_response ?k _ _ _] =>
      pose proof (denominator_nonzero _ _ _ (alpha / A) omega HaA Hsin Hcos
                    k eq_refl) as (Hd0 & Hdpi & Hdw)
  end.
  unfold has_response.
  repeat match goal with
         | |- _ /\ _ => split
         end;
    try assumption;
    unfold num_re, num_im, den_re, den_im;
    rewrite ?Rmult_0_r, ?cos_0, ?sin_0, ?cos_PI, ?sin_PI, ?cos_2PI, ?sin_2PI,
      ?cos_2a, ?sin_2a;
    pose proof (sin2_cos2 omega) as Hsc; unfold Rsqr in Hsc;
    destruct Hcos as [Hcos1 Hcos2];
    set (a := alpha) in *; set (sw := sin omega) in *;
    set (cw := cos omega) in *;
    clearbody a; clearbody sw cw; clearbody A;
    trig_identity Hsc.
Qed.

(** X9: a peaking filter of 0 dB passes the signal unchanged (its
    numerator is its denominator), and the cut by [gain_db] is the exact
    inverse of the boost by [gain_db]: its numerator and denominator are
    those of the boost exchanged, divided by the boost's [b0]. *)
Theorem peaking_inverse :
  (exists a1 a2 : R,
      BiquadCoeffGenerator.peaking gen freq q 0 = Ok (1, a1, a2, a1, a2))
  /\ (exists b0 b1 b2 a1 a2 : R,
         BiquadCoeffGenerator.peaking gen freq q gain_db
         = Ok (b0, b1, b2, a1, a2)
         /\ b0 <> 0
         /\ BiquadCoeffGenerator.peaking gen freq q (- gain_db)
            = Ok (1 / b0, a1 / b0, a2 / b0, b1 / b0, b2 / b0)).
Proof.
  pose proof (alpha_pos sample_rate freq q Hfreq Hq) as Halpha.
  pose proof (Rpower_10_pos (gain_db / 40)) as HA.
  split.
  - rewrite peaking_eq by assumption.
    replace (0 / 40) with 0 by field.
    rewrite Rpower_O by lra.
    set (a := alpha) in *. set (cw := cos omega).
    exists (-2 * cw / (1 + a)), ((1 - a) / (1 + a)).
    apply coeffs_eq; field; lra.
  - rewrite !peaking_eq by assumption.
    replace (- gain_db / 40) with (- (gain_db / 40)) by field.
    rewrite Rpower_Ropp.
    set (A := Rpower 10 (gain_db / 40)) in *.
    set (a := alpha) in *. set (cw := cos omega).
    assert (0 < a / A) as HaA by (apply Rdiv_lt_0_compat; lra).
    assert (0 < a * A) as HaA' by (apply Rmult_lt_0_compat; lra).
    assert (0 < (1 + a * A) / (1 + a / A)) as Hb0
        by (apply Rdiv_lt_0_compat; lra).
    do 5 eexists. split; [reflexivity |]. split; [lra |].
    clearbody a cw A.
    apply coeffs_eq; field; repeat split; lra.
Qed.

End Peaking.


(** ** Stability and failures of the design methods *)

Section Stability.

Local Open Scope R_scope.

Lemma stability_triangle (a cw : R) :
  0 < a -> -1 < cw < 1 ->
  Rabs ((1 - a) / (1 + a)) < 1
  /\ Rabs (-2 * cw / (1 + a)) < 1 + (1 - a) / (1 + a).
Proof.
  intros Ha [Hc1 Hc2].
  assert (0 < / (1 + a)) as Hinv by (apply Rinv_0_lt_compat; lra).
  assert (1 + (1 - a) / (1 + a) = 2 * / (1 + a)) as -> by (field; lra).
  unfold Rdiv. set (i := / (1 + a)) in *.
  assert (i + a * i = 1) as Hi by (unfold i; field; lra).
  assert (0 < a * i) as Hai by (apply Rmult_lt_0_compat; lra).
  assert (- i < cw * i < i) as [Hlo Hhi] by (split; nra).
  split; apply Rabs_def1; lra.
Qed.

(** X10: for a valid specification every filter type gives a stable
    filter: the denominator coefficients lie strictly inside the stability
    triangle, [|a2| < 1] and [|a1| < 1 + a2], so both poles are inside the
    unit circle. *)
Theorem design_stable (args : Args) :
  0 < freq args < num_val (sample_rate args) / 2 -> 0 < q args ->
  exists b0 b1 b2 a1 a2 : R,
    design args = Ok (b0, b1, b2, a1, a2)
    /\ Rabs a2 < 1
    /\ Rabs a1 < 1 + a2.
Proof.
  intros Hf Hq.
  pose proof (alpha_pos _ _ _ Hf Hq) as Halpha.
  pose proof (cos_omega_range _ _ Hf) as Hcos.
  pose proof (Rpower_10_pos (gain args / 40)) as HA.
  unfold design. destruct (filter_type args).
  - rewrite lowpass_eq by assumption. do 5 eexists.
    split; [reflexivity | now apply stability_triangle].
  - rewrite highpass_eq by assumption. do 5 eexists.
    split; [reflexivity | now apply stability_triangle].
  - rewrite bandpass_eq by assumption. do 5 eexists.
    split; [reflexivity | now apply stability_triangle].
  - rewrite bandstop_eq by assumption. do 5 eexists.
    split; [reflexivity | now apply stability_triangle].
  - rewrite peaking_eq by assumption. do 5 eexists.
    split; [reflexivity |]. apply stability_triangle; [| assumption].
    apply Rdiv_lt_0_compat; lra.
Qed.

(** X10 at [--freq 1000]. *)
Lemma design_stable_witness :
  exists b0 b1 b2 a1 a2 : R,
    design default_args = Ok (b0, b1, b2, a1, a2)
    /\ Rabs a2 < 1
    /\ Rabs a1 < 1 + a2.
Proof.
  apply (design_stable default_args); simpl; lra.
Defined.

Lemma fdiv_zero (x y : R) : y = 0 -> fdiv x y = Raise ZeroDivisionError.
Proof.
  intros ->. unfold fdiv. destruct (Req_dec_T 0 0); [reflexivity | contradiction].
Qed.

Lemma normalize_zero (b0 b1 b2 a0 a1 a2 : R) :
  a0 = 0 ->
  BiquadCoeffGenerator._normalize b0 b1 b2 a0 a1 a2 = Raise ZeroDivisionError.
Proof.
  intros Ha. unfold BiquadCoeffGenerator._normalize.
  now rewrite (fdiv_zero b0 a0 Ha).
Qed.

(** X12: in exact arithmetic [_normalize] raises ZeroDivisionError
    exactly when [a0] is 0; otherwise the result does not change when all
    six inputs are scaled by the same non-zero factor, and normalizing its
    result again, with the leading 1 as [a0], gives it back.  (On floats
    every quotient is rounded: see [normalize_rounds].) *)
Theorem normalize_properties (b0 b1 b2 a0 a1 a2 : R) :
  (a0 = 0 ->
   BiquadCoeffGenerator._normalize b0 b1 b2 a0 a1 a2
   = Raise ZeroDivisionError)
  /\ (a0 <> 0 ->
      exists nb0 nb1 nb2 na1 na2 : R,
        BiquadCoeffGenerator._normalize b0 b1 b2 a0 a1 a2
        = Ok (nb0, nb1, nb2, na1, na2)
        /\ BiquadCoeffGenerator._normalize nb0 nb1 nb2 1 na1 na2
           = Ok (nb0, nb1, nb2, na1, na2)
        /\ forall k : R,
            k <> 0 ->
            BiquadCoeffGenerator._normalize
              (k * b0) (k * b1) (k * b2) (k * a0) (k * a1) (k * a2)
            = Ok (nb0, nb1, nb2, na1, na2)).
Proof.
  split; [apply normalize_zero |].
  intros Ha. rewrite normalize_ok by assumption.
  do 5 eexists. split; [reflexivity |]. split.
  - rewrite normalize_ok by lra. apply coeffs_eq; field; assumption.
  - intros k Hk.
    assert (k * a0 <> 0) by (apply Rmult_integral_contrapositive_currified;
                             assumption).
    rewrite normalize_ok by assumption.
    apply coeffs_eq; field; split; assumption.
Qed.

End Stability.

(** ** More on the Verilog encoder *)

Section VerilogEncoder.

(** X13: for a positive [width] divisible by 4 the hexadecimal field is
    fixed-width: every coefficient, whatever its value and [frac_bits],
    renders with exactly [width // 4] digits. *)
Theorem hex_field_fixed_width (width frac_bits : Z) (v : R) :
  0 < width -> width mod 4 = 0 ->
  exists h : string,
    CoeffFormatter.hex_field width frac_bits v = Ok h
    /\ String.length h = Z.to_nat (width / 4).
Proof.
  intros Hw Hm.
  assert (0 < 2 ^ width) as Hpos by (apply Z.pow_pos_nonneg; lia).
  unfold CoeffFormatter.hex_field. rewrite to_fixed_mod by lia. simpl bind.
  eexists. split; [reflexivity |].
  pose proof (Z.mod_pos_bound (int_of_float (v * pow2 frac_bits))
                (2 ^ width) Hpos) as Hb.
  assert (width = 4 * (width / 4)) as Hdiv.
  { pose proof (Z.div_mod width 4 ltac:(lia)). lia. }
  assert (1 <= width / 4) as Hk by lia.
  rewrite length_hex_narrow; [lia | lia |].
  rewrite pow16_pow2 by lia. now rewrite <- Hdiv.
Qed.

(** X13 at width 16, as the test vectors of the waveform analysis use. *)
Lemma hex_field_fixed_width_witness :
  exists h : string,
    CoeffFormatter.hex_field 16 14 (-1 / 4) = Ok h
    /\ String.length h = Z.to_nat (16 / 4).
Proof.
  apply (hex_field_fixed_width 16 14 (-1 / 4)); [lia | reflexivity].
Defined.

End VerilogEncoder.

(** ** More on the command-line driver *)

Section MainOptions.

Lemma format_output_ignores_width
    (rt : Runtime) (args : Args) (w1 f1 w2 f2 : Z) (coeffs : Coeffs) :
  output args <> verilog ->
  format_output rt (with_width args w1 f1) coeffs
  = format_output rt (with_width args w2 f2) coeffs.
Proof.
  intros Hout. unfold format_output, with_width. simpl.
  destruct (output args); [contradiction | reflexivity ..].
Qed.

(** X16: [--width] and [--frac-bits] matter to the Verilog format alone:
    two invocations with another output format that differ in these two
    options only end the same way, with the same text. *)
Theorem width_ignored_unless_verilog
    (rt : Runtime) (args : Args) (w1 f1 w2 f2 : Z) :
  output args <> verilog ->
  main rt (with_width args w1 f1) = main rt (with_width args w2 f2).
Proof.
  intros Hout. unfold main.
  change (design (with_width args w1 f1))
    with (design (with_width args w2 f2)).
  change (freq (with_width args w1 f1)) with (freq (with_width args w2 f2)).
  change (sample_rate (with_width args w1 f1))
    with (sample_rate (with_width args w2 f2)).
  change (q (with_width args w1 f1)) with (q (with_width args w2 f2)).
  change (file (with_width args w1 f1)) with (file (with_width args w2 f2)).
  destruct (design (with_width args w2 f2)) as [coeffs | e]; [| reflexivity].
  now rewrite (format_output_ignores_width rt args w1 f1 w2 f2 coeffs Hout).
Qed.

(** X16 at [--freq 1000 --output json], widths 18/16 against -1/40. *)
Lemma width_ignored_unless_verilog_witness :
  main sample_runtime (with_width json_args 18 16)
  = main sample_runtime (with_width json_args (-1) 40).
Proof.
  apply (width_ignored_unless_verilog sample_runtime json_args 18 16 (-1) 40).
  simpl. discriminate.
Defined.

(** X17: [--file] changes where the document goes and nothing else.  If
    the invocation without [--file] prints a document and ends with
    status 0, then with a path that can be opened the same document,
    without the newline that [print] adds, is what the file receives, and
    the output stream gets the confirmation line instead; if the
    invocation without [--file] ends with status 1, the one with the path
    ends identically, without touching the file. *)
Theorem file_receives_the_document
    (rt : Runtime) (args : Args) (path : string) :
  path <> EmptyString -> can_open rt path = true ->
  (forall out : string,
      main rt (with_file args None) = Exit 0 out EmptyString None ->
      exists text : string,
        out = (text ++ nl)%string
        /\ main rt (with_file args (Some path))
           = Exit 0 ("Coefficients written to " ++ path ++ nl) EmptyString
               (Some (path, text)))
  /\ (exit_code (main rt (with_file args None)) = 1 ->
      main rt (with_file args (Some path)) = main rt (with_file args None)).
Proof.
  intros Hpath Hopen.
  assert (file_given (Some path) = Some path) as Hgiven.
  { destruct path; [contradiction | reflexivity]. }
  assert (forall coeffs p,
             format_output rt (with_file args p) coeffs
             = format_output rt (with_file args None) coeffs) as Hfmt.
  { intros coeffs p. unfold format_output, with_file. simpl.
    destruct (output args); reflexivity. }
  unfold main.
  change (design (with_file args (Some path)))
    with (design (with_file args None)).
  change (freq (with_file args (Some path)))
    with (freq (with_file args None)).
  change (sample_rate (with_file args (Some path)))
    with (sample_rate (with_file args None)).
  change (q (with_file args (Some path))) with (q (with_file args None)).
  change (file (with_file args (Some path))) with (Some path).
  change (file (with_file args None)) with (@None string).
  rewrite Hgiven, Hopen. simpl file_given.
  destruct (fle (freq (with_file args None)) 0
            || fge (freq (with_file args None))
                 (num_val (sample_rate (with_file args None)) / 2))%bool.
  { split; [intros out H; discriminate | reflexivity]. }
  destruct (fle (q (with_file args None)) 0).
  { split; [intros out H; discriminate | reflexivity]. }
  destruct (design (with_file args None)) as [coeffs | e].
  2:{ split; [intros out H; discriminate | reflexivity]. }
  rewrite (Hfmt coeffs (Some path)).
  destruct (format_output rt (with_file args None) coeffs) as [text | e].
  2:{ split; [intros out H; discriminate | reflexivity]. }
  split.
  - intros out H. exists text. inversion H. now split.
  - simpl. discriminate.
Qed.

(** X17 at [--freq 1000] with the path [out.v]. *)
Lemma file_receives_the_document_witness :
  (forall out : string,
      main sample_runtime (with_file default_args None)
      = Exit 0 out EmptyString None ->
      exists text : string,
        out = (text ++ nl)%string
        /\ main sample_runtime (with_file default_args (Some "out.v"%string))
           = Exit 0 ("Coefficients written to " ++ "out.v" ++ nl) EmptyString
               (Some ("out.v"%string, text)))
  /\ (exit_code (main sample_runtime (with_file default_args None)) = 1 ->
      main sample_runtime (with_file default_args (Some "out.v"%string))
      = main sample_runtime (with_file default_args None)).
Proof.
  apply (file_receives_the_document sample_runtime default_args "out.v");
    [discriminate | reflexivity].
Defined.

End MainOptions.

(** ** How the design methods relate *)

Section Relations.

Local Open Scope R_scope.

(** X18: at the same frequency and Q the bandstop is the sum of the
    lowpass and the highpass: the three share their denominator and the
    numerator of the bandstop is the sum of the other two numerators. *)
Theorem bandstop_is_lowpass_plus_highpass (sample_rate freq q : R) :
  0 < freq < sample_rate / 2 -> 0 < q ->
  exists l0 l1 l2 h0 h1 h2 a1 a2 : R,
    BiquadCoeffGenerator.lowpass (BiquadCoeffGenerator.mk sample_rate) freq q
    = Ok (l0, l1, l2, a1, a2)
    /\ BiquadCoeffGenerator.highpass (BiquadCoeffGenerator.mk sample_rate)
         freq q
       = Ok (h0, h1, h2, a1, a2)
    /\ BiquadCoeffGenerator.bandstop (BiquadCoeffGenerator.mk sample_rate)
         freq q
       = Ok (l0 + h0, l1 + h1, l2 + h2, a1, a2).
Proof.
  intros Hf Hq. pose proof (alpha_pos _ _ _ Hf Hq) as Halpha.
  rewrite lowpass_eq, highpass_eq, bandstop_eq by assumption.
  set (a := sin (2 * PI * freq / sample_rate) / (2 * q)) in *.
  do 8 eexists. split; [reflexivity |]. split; [reflexivity |].
  apply coeffs_eq; field; lra.
Qed.

(** X18 at 1000 Hz, 48000 Hz, Q 0.707. *)
Lemma bandstop_is_lowpass_plus_highpass_witness :
  exists l0 l1 l2 h0 h1 h2 a1 a2 : R,
    BiquadCoeffGenerator.lowpass (BiquadCoeffGenerator.mk 48000) 1000
      (707 / 1000)
    = Ok (l0, l1, l2, a1, a2)
    /\ BiquadCoeffGenerator.highpass (BiquadCoeffGenerator.mk 48000) 1000
         (707 / 1000)
       = Ok (h0, h1, h2, a1, a2)
    /\ BiquadCoeffGenerator.bandstop (BiquadCoeffGenerator.mk 48000) 1000
         (707 / 1000)
       = Ok (l0 + h0, l1 + h1, l2 + h2, a1, a2).
Proof.
  apply (bandstop_is_lowpass_plus_highpass 48000 1000 (707 / 1000)); lra.
Defined.

(** X4 at the specification's scenario 1. *)
Lemma lowpass_response_witness :
  exists k : Coeffs,
    BiquadCoeffGenerator.lowpass (BiquadCoeffGenerator.mk 48000) 1000
      (707 / 1000)
    = Ok k
    /\ has_response k PI 0 0
    /\ has_response k (2 * PI * 1000 / 48000) 0 (- (707 / 1000)).
Proof.
  apply (lowpass_response 48000 1000 (707 / 1000)); lra.
Defined.

(** X5 at the specification's scenario 2. *)
Lemma highpass_response_witness :
  exists k : Coeffs,
    BiquadCoeffGenerator.highpass (BiquadCoeffGenerator.mk 48000) 1000
      (707 / 1000)
    = Ok k
    /\ has_response k 0 0 0
    /\ has_response k PI 1 0
    /\ has_response k (2 * PI * 1000 / 48000) 0 (707 / 1000).
Proof.
  apply (highpass_response 48000 1000 (707 / 1000)); lra.
Defined.

(** X6 at 1000 Hz, 48000 Hz, Q 2. *)
Lemma bandpass_response_witness :
  exists k : Coeffs,
    BiquadCoeffGenerator.bandpass (BiquadCoeffGenerator.mk 48000) 1000 2
    = Ok k
    /\ has_response k 0 0 0
    /\ has_response k PI 0 0
    /\ has_response k (2 * PI * 1000 / 48000) 2 0.
Proof.
  apply (bandpass_response 48000 1000 2); lra.
Defined.

(** X7 at 1000 Hz, 48000 Hz, Q 2. *)
Lemma bandstop_response_witness :
  exists k : Coeffs,
    BiquadCoeffGenerator.bandstop (BiquadCoeffGenerator.mk 48000) 1000 2
    = Ok k
    /\ has_response k 0 1 0
    /\ has_response k PI 1 0
    /\ has_response k (2 * PI * 1000 / 48000) 0 0.
Proof.
  apply (bandstop_response 48000 1000 2); lra.
Defined.

(** X8 at the specification's scenario 3: a boost of 6 dB. *)
Lemma peaking_response_witness :
  exists k : Coeffs,
    BiquadCoeffGenerator.peaking (BiquadCoeffGenerator.mk 48000) 1000 1 6
    = Ok k
    /\ has_response k 0 1 0
    /\ has_response k PI 1 0
    /\ has_response k (2 * PI * 1000 / 48000) (Rpower 10 (6 / 20)) 0.
Proof.
  apply (peaking_response 48000 1000 1 6); lra.
Defined.

(** X9 at the specification's scenario 3. *)
Lemma peaking_inverse_witness :
  (exists a1 a2 : R,
      BiquadCoeffGenerator.peaking (BiquadCoeffGenerator.mk 48000) 1000 1 0
      = Ok (1, a1, a2, a1, a2))
  /\ (exists b0 b1 b2 a1 a2 : R,
         BiquadCoeffGenerator.peaking (BiquadCoeffGenerator.mk 48000)
           1000 1 6
         = Ok (b0, b1, b2, a1, a2)
         /\ b0 <> 0
         /\ BiquadCoeffGenerator.peaking (BiquadCoeffGenerator.mk 48000)
              1000 1 (- 6)
            = Ok (1 / b0, a1 / b0, a2 / b0, b1 / b0, b2 / b0)).
Proof.
  apply (peaking_inverse 48000 1000 1 6); lra.
Defined.

End Relations.

(** ** Order under quantization *)

Section QuantizerOrder.

Lemma int_of_float_monotone (x y : R) :
  (x <= y)%R -> int_of_float x <= int_of_float y.
Proof.
  intros Hxy.
  destruct (Rle_dec 0 x) as [Hx | Hx].
  - rewrite !int_of_float_nonneg by lra. now apply Zfloor_le.
  - destruct (Rle_dec 0 y) as [Hy | Hy].
    + rewrite (int_of_float_nonpos x) by lra.
      rewrite (int_of_float_nonneg y) by assumption.
      pose proof (int_of_float_bound x) as [_ Hmx].
      assert (Zceil x <= 0).
      { unfold Zceil. assert (0 <= Zfloor (- x)); [| lia].
        apply Zfloor_lub. simpl. lra. }
      assert (0 <= Zfloor y) by (apply Zfloor_lub; simpl; lra).
      lia.
    + rewrite !int_of_float_nonpos by lra. now apply Zceil_le.
Qed.

Lemma decode_wrapped (width raw : Z) :
  0 < width -> - 2 ^ (width - 1) <= raw < 2 ^ (width - 1) ->
  twos_complement_decode width (raw mod 2 ^ width) = raw.
Proof.
  intros Hw Hraw.
  assert (2 ^ width = 2 * 2 ^ (width - 1)) as Hdouble.
  { replace width with (width - 1 + 1) at 1 by lia.
    rewrite Z.pow_add_r by lia. rewrite Z.pow_1_r. ring. }
  assert (0 < 2 ^ (width - 1)) by (apply Z.pow_pos_nonneg; lia).
  unfold twos_complement_decode.
  destruct (Z_lt_le_dec raw 0) as [Hneg | Hpos].
  - assert (raw mod 2 ^ width = raw + 2 ^ width) as ->.
    { symmetry. apply (Z.mod_unique raw (2 ^ width) (-1)); lia. }
    destruct (Z.ltb_spec (raw + 2 ^ width) (2 ^ (width - 1))); lia.
  - rewrite Z.mod_small by lia.
    destruct (Z.ltb_spec raw (2 ^ (width - 1))); lia.
Qed.

(** X19: quantization keeps the order of coefficients that fit the
    signed [width]-bit range: if [v1 <= v2], the pattern of [v1] decodes
    to a value not above the one of [v2]. *)
Theorem to_fixed_monotone (width frac_bits : Z) (v1 v2 : R) :
  0 < width ->
  - 2 ^ (width - 1) <= int_of_float (v1 * pow2 frac_bits) < 2 ^ (width - 1) ->
  - 2 ^ (width - 1) <= int_of_float (v2 * pow2 frac_bits) < 2 ^ (width - 1) ->
  (v1 <= v2)%R ->
  exists p1 p2 : Z,
    CoeffFormatter.to_fixed width frac_bits v1 = Ok p1
    /\ CoeffFormatter.to_fixed width frac_bits v2 = Ok p2
    /\ twos_complement_decode width p1 <= twos_complement_decode width p2.
Proof.
  intros Hw H1 H2 Hle.
  do 2 eexists.
  split; [apply to_fixed_mod; lia |].
  split; [apply to_fixed_mod; lia |].
  rewrite !decode_wrapped by assumption.
  apply int_of_float_monotone.
  apply Rmult_le_compat_r; [| assumption].
  pose proof (pow2_pos frac_bits). lra.
Qed.

(** X19 at the coefficients -1/4 and 1/2, width 18, 16 fractional bits. *)
Lemma to_fixed_monotone_witness :
  exists p1 p2 : Z,
    CoeffFormatter.to_fixed 18 16 (-1 / 4) = Ok p1
    /\ CoeffFormatter.to_fixed 18 16 (1 / 2) = Ok p2
    /\ twos_complement_decode 18 p1 <= twos_complement_decode 18 p2.
Proof.
  apply (to_fixed_monotone 18 16 (-1 / 4) (1 / 2)).
  - lia.
  - rewrite pow2_16.
    rewrite (int_of_float_eq (-1 / 4 * 65536) (-16384))
      by (simpl; split; intros; lra).
    lia.
  - rewrite pow2_16.
    rewrite (int_of_float_eq (1 / 2 * 65536) 32768)
      by (simpl; split; intros; lra).
    lia.
  - lra.
Defined.

End QuantizerOrder.

(** * Properties of the binary64 embedding *)

(** ** Classes and comparisons of floats *)

Section FloatClasses.

Import PrimFloat SpecFloat FloatOps FloatAxioms.

Lemma SFeqb_refl (s : spec_float) : s <> S754_nan -> SFeqb s s = true.
Proof.
  intros Hs. destruct s as [sg | sg | | sg m e]; unfold SFeqb; simpl.
  - reflexivity.
  - now destruct sg.
  - contradiction.
  - destruct sg; rewrite Z.compare_refl, Pos.compare_cont_refl; reflexivity.
Qed.

Lemma Prim2SF_infinity : Prim2SF infinity = S754_infinity false.
Proof. reflexivity. Qed.

Lemma is_infinity_not_nan (x : float) :
  is_infinity x = true -> is_nan x = false.
Proof.
  unfold is_infinity, is_nan. rewrite !eqb_spec, abs_spec, Prim2SF_infinity.
  destruct (Prim2SF x) as [sg | sg | | sg m e] eqn:Hx; simpl; try discriminate.
  intros _. now destruct sg.
Qed.

Lemma SFcompare_Lt_Gt (x y : spec_float) :
  SFcompare x y = Some Lt -> SFcompare y x = Some Gt.
Proof.
  destruct x as [s1 | s1 | | s1 m1 e1], y as [s2 | s2 | | s2 m2 e2]; simpl;
    intros H; try discriminate;
    repeat match goal with
           | b : bool |- _ => destruct b
           end;
    try discriminate; try reflexivity;
    rewrite (Z.compare_antisym e1 e2);
    destruct (e1 ?= e2); simpl in *; try discriminate; try reflexivity;
    change (Pos.compare_cont Eq m2 m1)
      with (Pos.compare_cont (CompOpp Eq) m2 m1);
    rewrite <- (Pos.compare_cont_antisym m1 m2 Eq);
    destruct (Pos.compare_cont Eq m1 m2); simpl in *; try discriminate;
    reflexivity.
Qed.

Lemma ltb_not_leb (x y : float) : ltb x y = true -> leb y x = false.
Proof.
  rewrite ltb_spec, leb_spec. unfold SFltb, SFleb.
  destruct (SFcompare (Prim2SF x) (Prim2SF y)) as [[| |] |] eqn:H;
    try discriminate.
  intros _. now rewrite (SFcompare_Lt_Gt _ _ H).
Qed.

End FloatClasses.


(** ** The quantizer on binary64 floats *)

Section Binary64Quantizer.

Import PrimFloat.

Lemma finite_not_nan_inf (x : float) :
  is_finite x = true -> is_nan x = false /\ is_infinity x = false.
Proof.
  unfold is_finite. destruct (is_nan x), (is_infinity x); simpl;
    intros H; try discriminate; now split.
Qed.

Lemma int_of_float_finite (x : float) :
  is_finite x = true -> Binary64.int_of_float x = Ok (Binary64.trunc x).
Proof.
  intros H. destruct (finite_not_nan_inf x H) as [Hn Hi].
  unfold Binary64.int_of_float. now rewrite Hn, Hi.
Qed.

Lemma int_of_float_nan (x : float) :
  is_nan x = true -> Binary64.int_of_float x = Raise ValueError.
Proof. intros H. unfold Binary64.int_of_float. now rewrite H. Qed.

Lemma int_of_float_infinity (x : float) :
  is_infinity x = true -> Binary64.int_of_float x = Raise OverflowError.
Proof.
  intros H. unfold Binary64.int_of_float.
  now rewrite (is_infinity_not_nan x H), H.
Qed.

(** Converting the scale [2 ** frac_bits] is the one step of the product
    that can raise. *)
Lemma scale_raises_overflow (v : float) (frac_bits : Z) (e : exn) :
  Binary64.product v frac_bits = Raise e ->
  e = OverflowError.
Proof.
  unfold Binary64.product, Binary64.pow2, Binary64.fmul_num.
  destruct (0 <=? frac_bits); simpl bind; unfold Binary64.float_of_int;
    destruct (is_infinity _); simpl; intros H; now inversion H.
Qed.

Lemma to_fixed_finite (width frac_bits : Z) (v scaled : float) :
  0 <= width ->
  Binary64.product v frac_bits = Ok scaled ->
  is_finite scaled = true ->
  Binary64.CoeffFormatter.to_fixed width frac_bits v
  = Ok (Binary64.trunc scaled mod 2 ^ width).
Proof.
  intros Hw Hs Hf. unfold Binary64.CoeffFormatter.to_fixed.
  rewrite Hs. simpl bind. rewrite (int_of_float_finite scaled Hf). simpl bind.
  rewrite (lshift1_nonneg width Hw). simpl bind.
  now rewrite land_mask_mod.
Qed.

Lemma to_fixed_quantizable (width frac_bits : Z) (v : float) :
  0 <= width -> Binary64.quantizable frac_bits v = true ->
  exists p : Z, Binary64.CoeffFormatter.to_fixed width frac_bits v = Ok p.
Proof.
  intros Hw. unfold Binary64.quantizable.
  destruct (Binary64.product v frac_bits) as [scaled |] eqn:Hs;
    [| discriminate].
  intros Hf. rewrite (to_fixed_finite width frac_bits v scaled Hw Hs Hf).
  eexists; reflexivity.
Qed.

Lemma to_fixed_quantizable_negative_width (width frac_bits : Z) (v : float) :
  width < 0 -> Binary64.quantizable frac_bits v = true ->
  Binary64.CoeffFormatter.to_fixed width frac_bits v = Raise ValueError.
Proof.
  intros Hw. unfold Binary64.quantizable, Binary64.CoeffFormatter.to_fixed.
  destruct (Binary64.product v frac_bits) as [scaled |];
    [| discriminate].
  intros Hf. simpl bind. rewrite (int_of_float_finite scaled Hf). simpl bind.
  now rewrite (lshift1_neg width Hw).
Qed.

Lemma to_fixed_not_quantizable (width frac_bits : Z) (v : float) :
  Binary64.quantizable frac_bits v = false ->
  Binary64.CoeffFormatter.to_fixed width frac_bits v = Raise OverflowError
  \/ Binary64.CoeffFormatter.to_fixed width frac_bits v = Raise ValueError.
Proof.
  unfold Binary64.quantizable, Binary64.CoeffFormatter.to_fixed.
  destruct (Binary64.product v frac_bits) as [scaled | e] eqn:Hs.
  - unfold is_finite. simpl bind. unfold Binary64.int_of_float.
    destruct (is_nan scaled); [now right |].
    destruct (is_infinity scaled); [now left | discriminate].
  - intros _. left. now rewrite (scale_raises_overflow v frac_bits e Hs).
Qed.

(** C2, as stated, fails: the quantizer raises for coefficients beyond the
    range it can scale.  With the default 16 fractional bits the finite
    coefficient 2^1023 has a product [val * scale] that overflows to
    infinity, and [int] raises OverflowError; with 1024 fractional bits
    [2 ** frac_bits] does not convert to a float, whatever the
    coefficient; a NaN coefficient is a ValueError.  The first case is met
    by [--filter-type peaking --freq 1000 --gain 12320], whose [b0] is
    about 6.6e306. *)
Lemma to_fixed_raises :
  PrimFloat.is_finite 0x1p+1023%float = true
  /\ Binary64.CoeffFormatter.to_fixed 18 16 0x1p+1023%float
     = Raise OverflowError
  /\ Binary64.CoeffFormatter.to_fixed 18 1024 1%float = Raise OverflowError
  /\ Binary64.CoeffFormatter.to_fixed 18 16 PrimFloat.nan = Raise ValueError
  /\ Binary64.main Binary64.sample_runtime
       (Binary64.invocation peaking 1000%float 12320%float verilog 18)
     = Binary64.Uncaught OverflowError.
Proof. vm_compute. repeat split. Qed.

(** C2, amended: for a positive [width] the masked value lies in
    [0, 2^width); decoding it as two's complement and masking again gives
    it back; and [to_fixed] returns, with the integer part of the product
    reduced modulo [2^width], whenever the product [val * 2**frac_bits] is
    a finite float, whatever its magnitude; it raises OverflowError when
    [2 ** frac_bits] does not convert to a float or the product is an
    infinity, and ValueError when the product is NaN. *)
Theorem wraparound_law (width : Z) :
  0 < width ->
  (forall raw : Z,
      0 <= Z.land raw (2 ^ width - 1) < 2 ^ width
      /\ twos_complement_encode width
           (twos_complement_decode width (Z.land raw (2 ^ width - 1)))
         = Z.land raw (2 ^ width - 1))
  /\ (forall (v : PrimFloat.float) (frac_bits : Z),
         match Binary64.product v frac_bits with
         | Raise e =>
             e = OverflowError
             /\ Binary64.CoeffFormatter.to_fixed width frac_bits v
                = Raise OverflowError
         | Ok scaled =>
             (PrimFloat.is_finite scaled = true ->
              Binary64.CoeffFormatter.to_fixed width frac_bits v
              = Ok (Binary64.trunc scaled mod 2 ^ width)
              /\ 0 <= Binary64.trunc scaled mod 2 ^ width < 2 ^ width)
             /\ (PrimFloat.is_infinity scaled = true ->
                 Binary64.CoeffFormatter.to_fixed width frac_bits v
                 = Raise OverflowError)
             /\ (PrimFloat.is_nan scaled = true ->
                 Binary64.CoeffFormatter.to_fixed width frac_bits v
                 = Raise ValueError)
         end).
Proof.
  intros Hw.
  assert (0 < 2 ^ width) as Hpos by (apply Z.pow_pos_nonneg; lia).
  split.
  - intros raw. rewrite land_mask_mod by lia.
    pose proof (Z.mod_pos_bound raw (2 ^ width) Hpos) as Hb.
    split; [exact Hb |].
    unfold twos_complement_encode, twos_complement_decode.
    rewrite land_mask_mod by lia.
    destruct (Z.ltb_spec (raw mod 2 ^ width) (2 ^ (width - 1))) as [_ | _].
    + apply Z.mod_mod. lia.
    + replace (raw mod 2 ^ width - 2 ^ width)
        with (raw mod 2 ^ width + (-1) * 2 ^ width) by ring.
      rewrite Z.mod_add by lia. apply Z.mod_mod. lia.
  - intros v frac_bits.
    destruct (Binary64.product v frac_bits)
      as [scaled | e] eqn:Hs.
    + split; [| split].
      * intros Hf. split.
        -- apply (to_fixed_finite width frac_bits v scaled); [lia | | ];
             assumption.
        -- apply Z.mod_pos_bound. exact Hpos.
      * intros Hi. unfold Binary64.CoeffFormatter.to_fixed.
        rewrite Hs. simpl bind. now rewrite (int_of_float_infinity scaled Hi).
      * intros Hn. unfold Binary64.CoeffFormatter.to_fixed.
        rewrite Hs. simpl bind. now rewrite (int_of_float_nan scaled Hn).
    + pose proof (scale_raises_overflow v frac_bits e Hs) as ->.
      split; [reflexivity |].
      unfold Binary64.CoeffFormatter.to_fixed. now rewrite Hs.
Qed.

(** C2 at width 8. *)
Lemma wraparound_law_witness :
  (forall raw : Z,
      0 <= Z.land raw (2 ^ 8 - 1) < 2 ^ 8
      /\ twos_complement_encode 8
           (twos_complement_decode 8 (Z.land raw (2 ^ 8 - 1)))
         = Z.land raw (2 ^ 8 - 1))
  /\ (forall (v : PrimFloat.float) (frac_bits : Z),
         match Binary64.product v frac_bits with
         | Raise e =>
             e = OverflowError
             /\ Binary64.CoeffFormatter.to_fixed 8 frac_bits v
                = Raise OverflowError
         | Ok scaled =>
             (PrimFloat.is_finite scaled = true ->
              Binary64.CoeffFormatter.to_fixed 8 frac_bits v
              = Ok (Binary64.trunc scaled mod 2 ^ 8)
              /\ 0 <= Binary64.trunc scaled mod 2 ^ 8 < 2 ^ 8)
             /\ (PrimFloat.is_infinity scaled = true ->
                 Binary64.CoeffFormatter.to_fixed 8 frac_bits v
                 = Raise OverflowError)
             /\ (PrimFloat.is_nan scaled = true ->
                 Binary64.CoeffFormatter.to_fixed 8 frac_bits v
                 = Raise ValueError)
         end).
Proof.
  apply (wraparound_law 8). lia.
Defined.

End Binary64Quantizer.

(** ** The design methods on binary64 floats *)

Section Binary64Design.

Import PrimFloat SpecFloat FloatOps.

Lemma value_finite (x : float) (s : bool) (m : positive) (e : Z) :
  Prim2SF x = S754_finite s m e ->
  Binary64.value x
  = (IZR (if s then Z.neg m else Z.pos m) * powerRZ 2 e)%R.
Proof. intros H. unfold Binary64.value. now rewrite H. Qed.

Lemma powerRZ_2_neg (k : positive) :
  powerRZ 2 (Z.neg k) = (/ IZR (2 ^ Z.pos k))%R.
Proof.
  unfold powerRZ. rewrite <- (positive_nat_Z k), <- pow_IZR. reflexivity.
Qed.

(** Replaces [value x], for a float literal [x], by its mantissa times the
    power of two. *)
Ltac float_value x :=
  let s := eval vm_compute in (Prim2SF x) in
  match s with
  | S754_finite ?sg ?m ?e =>
      rewrite (value_finite x sg m e) by (vm_compute; reflexivity)
  end.

(** C3, as stated, fails for the binary64 code: the valid specification
    1 Hz at 48000 Hz with Q 0.707 gives coefficients whose gain at z = 1
    is 1 - 1.15e-9, outside the tolerance (cos omega is within 1e-8 of 1
    and the differences [1 - cos omega] and [1 + a1 + a2] keep few of its
    digits); at 1e-5 Hz cos omega rounds to 1 and the numerator is 0. *)
Lemma lowpass_misses_tolerance :
  (0 <? 1)%float = true /\ (1 <? 24000)%float = true
  /\ (0 <? 0x1.69fbe76c8b439p-1)%float = true
  /\ Binary64.BiquadCoeffGenerator.lowpass Binary64.sample_runtime
       (Binary64.BiquadCoeffGenerator.mk (Binary64.Int 48000))
       1%float 0x1.69fbe76c8b439p-1%float
     = Ok (0x1.26585cfa4fc3ap-28, 0x1.26585cfa4fc3ap-27,
           0x1.26585cfa4fc3ap-28, -0x1.fff3ddbb115e5p+0,
           0x1.ffe7bc094eeb2p-1)%float
  /\ (Rabs ((Binary64.value 0x1.26585cfa4fc3ap-28%float
             + Binary64.value 0x1.26585cfa4fc3ap-27%float
             + Binary64.value 0x1.26585cfa4fc3ap-28%float)
            / (1 + Binary64.value (-0x1.fff3ddbb115e5p+0)%float
               + Binary64.value 0x1.ffe7bc094eeb2p-1%float) - 1)
      > tolerance)%R
  /\ Binary64.BiquadCoeffGenerator.lowpass Binary64.sample_runtime
       (Binary64.BiquadCoeffGenerator.mk (Binary64.Int 48000))
       0x1.4f8b588e368f1p-17%float 0x1.69fbe76c8b439p-1%float
     = Ok (0, 0, 0, -0x1.fffffff80c468p+0, 0x1.fffffff0188d0p-1)%float.
Proof.
  do 4 (split; [vm_compute; reflexivity |]).
  split; [| vm_compute; reflexivity].
  float_value 0x1.26585cfa4fc3ap-28%float.
  float_value 0x1.26585cfa4fc3ap-27%float.
  float_value (-0x1.fff3ddbb115e5p+0)%float.
  float_value 0x1.ffe7bc094eeb2p-1%float.
  unfold tolerance. rewrite !powerRZ_2_neg.
  repeat match goal with
         | |- context [IZR (2 ^ Z.pos ?k)] =>
             let v := eval vm_compute in (2 ^ Z.pos k) in
             change (2 ^ Z.pos k) with v
         end.
  rewrite Rabs_left by lra. lra.
Qed.

(** C7, as stated, fails for the binary64 code: for the positive gain
    1e-20 dB, [10.0 ** (gain_db / 40.0)] is exactly 1.0, so [b0] and [a0]
    are the same float and the returned [b0] is exactly 1, not above it;
    and for 12331 dB the power is beyond the range and [peaking] raises
    OverflowError.  (1000 Hz at 48000 Hz, Q 1.) *)
Lemma peaking_boost_lost :
  (0 <? 0x1.79ca10c924223p-67)%float = true
  /\ Binary64.pow10 Binary64.sample_runtime (0x1.79ca10c924223p-67 / 40)%float
     = Ok 1%float
  /\ Binary64.BiquadCoeffGenerator.peaking Binary64.sample_runtime
       (Binary64.BiquadCoeffGenerator.mk (Binary64.Int 48000))
       1000%float 1%float 0x1.79ca10c924223p-67%float
     = Ok (1, -0x1.dc854389c37d9p+0, 0x1.c143cf09872e6p-1,
           -0x1.dc854389c37d9p+0, 0x1.c143cf09872e6p-1)%float
  /\ Binary64.BiquadCoeffGenerator.peaking Binary64.sample_runtime
       (Binary64.BiquadCoeffGenerator.mk (Binary64.Int 48000))
       1000%float 1%float 12331%float
     = Raise OverflowError.
Proof. vm_compute. repeat split. Qed.

(** On floats every quotient of [_normalize] is rounded, so scaling the
    six inputs by 0.3 changes the result: 1/3 against 0.3/(0.3*3). *)
Example normalize_rounds :
  Binary64.BiquadCoeffGenerator._normalize 1 1 1 3 1 1
  = Ok (0x1.5555555555555p-2, 0x1.5555555555555p-2, 0x1.5555555555555p-2,
        0x1.5555555555555p-2, 0x1.5555555555555p-2)%float
  /\ Binary64.BiquadCoeffGenerator._normalize
       (0x1.3333333333333p-2 * 1) (0x1.3333333333333p-2 * 1)
       (0x1.3333333333333p-2 * 1) (0x1.3333333333333p-2 * 3)
       (0x1.3333333333333p-2 * 1) (0x1.3333333333333p-2 * 1)
     = Ok (0x1.5555555555556p-2, 0x1.5555555555556p-2, 0x1.5555555555556p-2,
           0x1.5555555555556p-2, 0x1.5555555555556p-2)%float.
Proof. vm_compute. split; reflexivity. Qed.

(** How a division and the normalization end. *)
Lemma fdiv_cases (x y : float) :
  (eqb y 0 = true /\ Binary64.fdiv x y = Raise ZeroDivisionError)
  \/ (eqb y 0 = false /\ Binary64.fdiv x y = Ok (x / y)%float).
Proof.
  unfold Binary64.fdiv. change zero with 0%float.
  destruct (eqb y 0); [left | right]; now split.
Qed.

Lemma normalize_cases (b0 b1 b2 a0 a1 a2 : float) :
  (eqb a0 0 = true
   /\ Binary64.BiquadCoeffGenerator._normalize b0 b1 b2 a0 a1 a2
      = Raise ZeroDivisionError)
  \/ (eqb a0 0 = false
      /\ Binary64.BiquadCoeffGenerator._normalize b0 b1 b2 a0 a1 a2
         = Ok (b0 / a0, b1 / a0, b2 / a0, a1 / a0, a2 / a0)%float).
Proof.
  unfold Binary64.BiquadCoeffGenerator._normalize, Binary64.fdiv.
  change zero with 0%float.
  destruct (eqb a0 0); [left | right]; now split.
Qed.

Lemma fdiv_num_cases (x : float) (n : Binary64.num) (rate : float) :
  Binary64.to_float n = Ok rate ->
  (eqb rate 0 = true /\ Binary64.fdiv_num x n = Raise ZeroDivisionError)
  \/ (eqb rate 0 = false /\ Binary64.fdiv_num x n = Ok (x / rate)%float).
Proof.
  intros H. unfold Binary64.fdiv_num. rewrite H. simpl bind. apply fdiv_cases.
Qed.

Lemma math_sin_cases (rt : Binary64.Runtime) (x : float) :
  (is_infinity x = true /\ Binary64.math_sin rt x = Raise ValueError)
  \/ (is_infinity x = false
      /\ Binary64.math_sin rt x
         = Ok (if is_nan x then nan else Binary64.libm_sin rt x)).
Proof.
  unfold Binary64.math_sin. destruct (is_infinity x); [left | right]; now split.
Qed.

Lemma math_cos_cases (rt : Binary64.Runtime) (x : float) :
  (is_infinity x = true /\ Binary64.math_cos rt x = Raise ValueError)
  \/ (is_infinity x = false
      /\ Binary64.math_cos rt x
         = Ok (if is_nan x then nan else Binary64.libm_cos rt x)).
Proof.
  unfold Binary64.math_cos. destruct (is_infinity x); [left | right]; now split.
Qed.

(** X11: called directly on binary64 floats, the four methods lowpass,
    highpass, bandpass and bandstop raise ZeroDivisionError when the
    sample rate is zero, when [2.0 * q] is zero, and when [a0 = 1 + alpha]
    is zero; they raise ValueError when [omega] is an infinity (the domain
    error of [math.sin]); in every other case, valid specification or not,
    they return a coefficient set. *)
Theorem design_division_errors
    (rt : Binary64.Runtime) (sample_rate : Binary64.num)
    (rate freq q : float) :
  Binary64.to_float sample_rate = Ok rate ->
  Forall (fun method =>
            let result :=
              method rt (Binary64.BiquadCoeffGenerator.mk sample_rate) freq q
            in
            let omega := (2 * Binary64.pi * freq / rate)%float in
            let sin_omega :=
              if is_nan omega then nan else Binary64.libm_sin rt omega in
            let a0 := (1 + sin_omega / (2 * q))%float in
            (eqb rate 0 = true -> result = Raise ZeroDivisionError)
            /\ (eqb rate 0 = false -> is_infinity omega = true ->
                result = Raise ValueError)
            /\ (eqb rate 0 = false -> is_infinity omega = false ->
                eqb (2 * q) 0 = true -> result = Raise ZeroDivisionError)
            /\ (eqb rate 0 = false -> is_infinity omega = false ->
                eqb (2 * q) 0 = false -> eqb a0 0 = true ->
                result = Raise ZeroDivisionError)
            /\ (eqb rate 0 = false -> is_infinity omega = false ->
                eqb (2 * q) 0 = false -> eqb a0 0 = false ->
                exists k : Binary64.Coeffs, result = Ok k))
    [Binary64.BiquadCoeffGenerator.lowpass;
     Binary64.BiquadCoeffGenerator.highpass;
     Binary64.BiquadCoeffGenerator.bandpass;
     Binary64.BiquadCoeffGenerator.bandstop].
Proof.
  intros Hrate.
  repeat (apply Forall_cons; [| try apply Forall_nil]);
    cbv beta zeta;
    unfold Binary64.BiquadCoeffGenerator.lowpass,
      Binary64.BiquadCoeffGenerator.highpass,
      Binary64.BiquadCoeffGenerator.bandpass,
      Binary64.BiquadCoeffGenerator.bandstop;
    simpl Binary64.BiquadCoeffGenerator.sample_rate;
    cbv zeta;
    (destruct (fdiv_num_cases (2 * Binary64.pi * freq)%float sample_rate rate
                 Hrate) as [[Hr ->] | [Hr ->]]; cbv beta iota delta [bind];
     [repeat split; intros; congruence |]);
    (destruct (math_sin_cases rt (2 * Binary64.pi * freq / rate)%float)
       as [[Hi ->] | [Hi ->]]; cbv beta iota delta [bind];
     [repeat split; intros; congruence |]);
    (destruct (math_cos_cases rt (2 * Binary64.pi * freq / rate)%float)
       as [[Hi' ->] | [_ ->]]; [congruence |]; cbv beta iota delta [bind]);
    match goal with
    | |- context [Binary64.fdiv ?s (2 * q)%float] =>
        destruct (fdiv_cases s (2 * q)%float) as [[Hq ->] | [Hq ->]];
        cbv beta iota delta [bind]; [repeat split; intros; congruence |]
    end;
    match goal with
    | |- context [Binary64.BiquadCoeffGenerator._normalize ?b0 ?b1 ?b2 ?a0
                    ?a1 ?a2] =>
        destruct (normalize_cases b0 b1 b2 a0 a1 a2) as [[Ha ->] | [Ha ->]]
    end;
    repeat split; intros; try congruence; eexists; reflexivity.
Qed.

(** X11 where [a0] vanishes: at a sample rate of 12 and a frequency of 1,
    [math.sin(omega)] is 0.49999999999999994, and Q = -sin(omega)/2 makes
    every method raise, while Q = -1/4 does not. *)
Lemma design_division_errors_witness :
  Forall (fun method =>
            method Binary64.sample_runtime
              (Binary64.BiquadCoeffGenerator.mk (Binary64.Int 12))
              1%float (-0x1.fffffffffffffp-3)%float
            = Raise ZeroDivisionError
            /\ exists k : Binary64.Coeffs,
                method Binary64.sample_runtime
                  (Binary64.BiquadCoeffGenerator.mk (Binary64.Int 12))
                  1%float (-0x1p-2)%float
                = Ok k)
    [Binary64.BiquadCoeffGenerator.lowpass;
     Binary64.BiquadCoeffGenerator.highpass;
     Binary64.BiquadCoeffGenerator.bandpass;
     Binary64.BiquadCoeffGenerator.bandstop].
Proof.
  pose proof (design_division_errors Binary64.sample_runtime (Binary64.Int 12)
                12%float 1%float (-0x1.fffffffffffffp-3)%float eq_refl) as H1.
  pose proof (design_division_errors Binary64.sample_runtime (Binary64.Int 12)
                12%float 1%float (-0x1p-2)%float eq_refl) as H2.
  repeat match goal with
         | H : Forall _ (_ :: _) |- _ => inversion_clear H
         end.
  repeat (apply Forall_cons; [| try apply Forall_nil]);
    cbv beta zeta in *; split;
    match goal with
    | H : _ /\ _ /\ _ /\ (_ -> _ -> _ -> _ -> ?m _ _ _ ?q = Raise _) /\ _
      |- ?m _ _ _ ?q = Raise _ =>
        apply H; vm_compute; reflexivity
    | H : _ /\ _ /\ _ /\ _ /\ (_ -> _ -> _ -> _ -> exists k, ?m _ _ _ ?q = Ok k)
      |- exists k, ?m _ _ _ ?q = Ok k =>
        apply H; vm_compute; reflexivity
    end.
Defined.

End Binary64Design.

(** ** The Verilog encoder on binary64 floats *)

Section Binary64Verilog.

Import PrimFloat.

Local Open Scope string_scope.

Lemma param_line_quantizable (name : string) (width frac_bits : Z) (v : float) :
  0 <= width -> Binary64.quantizable frac_bits v = true ->
  exists l : string,
    Binary64.CoeffFormatter.param_line name width frac_bits v = Ok l.
Proof.
  intros Hw Hq. unfold Binary64.CoeffFormatter.param_line,
    Binary64.CoeffFormatter.hex_field.
  destruct (to_fixed_quantizable width frac_bits v Hw Hq) as [p ->].
  simpl bind. eexists; reflexivity.
Qed.

Lemma param_line_raises (name : string) (width frac_bits : Z) (v : float)
    (e : exn) :
  Binary64.CoeffFormatter.param_line name width frac_bits v = Raise e ->
  Binary64.CoeffFormatter.to_fixed width frac_bits v = Raise e.
Proof.
  unfold Binary64.CoeffFormatter.param_line, Binary64.CoeffFormatter.hex_field.
  destruct (Binary64.CoeffFormatter.to_fixed width frac_bits v);
    simpl bind; [discriminate | intros H; now inversion H].
Qed.

Lemma to_fixed_raises_cases (width frac_bits : Z) (v : float) (e : exn) :
  Binary64.CoeffFormatter.to_fixed width frac_bits v = Raise e ->
  (e = OverflowError /\ Binary64.quantizable frac_bits v = false)
  \/ (e = ValueError
      /\ (Binary64.quantizable frac_bits v = false \/ width < 0)).
Proof.
  unfold Binary64.CoeffFormatter.to_fixed, Binary64.quantizable.
  destruct (Binary64.product v frac_bits)
    as [scaled | e'] eqn:Hs; simpl bind.
  - unfold Binary64.int_of_float, is_finite.
    destruct (is_nan scaled); simpl.
    { intros H; inversion H. right. split; [reflexivity | now left]. }
    destruct (is_infinity scaled); simpl.
    { intros H; inversion H. left. now split. }
    unfold lshift1. destruct (Z.ltb_spec width 0) as [Hw | Hw]; simpl bind;
      [| discriminate].
    intros H; inversion H. right. split; [reflexivity | now right].
  - intros H; inversion H; subst.
    left. split; [| reflexivity].
    exact (scale_raises_overflow v frac_bits e Hs).
Qed.

Lemma to_verilog_raises
    (coeffs : Binary64.Coeffs) (width frac_bits : Z) (e : exn) :
  Binary64.CoeffFormatter.to_verilog coeffs width frac_bits = Raise e ->
  (exists v : float,
      In v (Binary64.coeff_list coeffs)
      /\ Binary64.CoeffFormatter.to_fixed width frac_bits v = Raise e)
  /\ ((e = OverflowError
       /\ forallb (Binary64.quantizable frac_bits)
            (Binary64.coeff_list coeffs) = false)
      \/ (e = ValueError
          /\ (forallb (Binary64.quantizable frac_bits)
                (Binary64.coeff_list coeffs) = false
              \/ width < 0))).
Proof.
  destruct coeffs as [[[[b0 b1] b2] a1] a2].
  unfold Binary64.coeff_list, Binary64.CoeffFormatter.to_verilog.
  assert (forall v : float,
             In v [b0; b1; b2; a1; a2] ->
             Binary64.CoeffFormatter.to_fixed width frac_bits v = Raise e ->
             (exists v' : float,
                 In v' [b0; b1; b2; a1; a2]
                 /\ Binary64.CoeffFormatter.to_fixed width frac_bits v'
                    = Raise e)
             /\ ((e = OverflowError
                  /\ forallb (Binary64.quantizable frac_bits)
                       [b0; b1; b2; a1; a2] = false)
                 \/ (e = ValueError
                     /\ (forallb (Binary64.quantizable frac_bits)
                           [b0; b1; b2; a1; a2] = false
                         \/ width < 0)))) as Hone.
  { intros v Hin Hv. split; [now exists v |].
    assert (Binary64.quantizable frac_bits v = false ->
            forallb (Binary64.quantizable frac_bits) [b0; b1; b2; a1; a2]
            = false) as Hnot.
    { intros Hq.
      destruct (forallb (Binary64.quantizable frac_bits)
                  [b0; b1; b2; a1; a2]) eqn:Hall; [| reflexivity].
      rewrite forallb_forall in Hall. rewrite (Hall v Hin) in Hq.
      discriminate. }
    destruct (to_fixed_raises_cases width frac_bits v e Hv)
      as [[-> Hq] | [-> [Hq | Hw]]]; auto. }
  destruct (Binary64.CoeffFormatter.param_line "B0" width frac_bits b0)
    eqn:H0; simpl bind.
  2:{ intros H; inversion H; subst. apply (Hone b0); [simpl; tauto |].
      now apply param_line_raises in H0. }
  destruct (Binary64.CoeffFormatter.param_line "B1" width frac_bits b1)
    eqn:H1; simpl bind.
  2:{ intros H; inversion H; subst. apply (Hone b1); [simpl; tauto |].
      now apply param_line_raises in H1. }
  destruct (Binary64.CoeffFormatter.param_line "B2" width frac_bits b2)
    eqn:H2; simpl bind.
  2:{ intros H; inversion H; subst. apply (Hone b2); [simpl; tauto |].
      now apply param_line_raises in H2. }
  destruct (Binary64.CoeffFormatter.param_line "A1" width frac_bits a1)
    eqn:H3; simpl bind.
  2:{ intros H; inversion H; subst. apply (Hone a1); [simpl; tauto |].
      now apply param_line_raises in H3. }
  destruct (Binary64.CoeffFormatter.param_line "A2" width frac_bits a2)
    eqn:H4; simpl bind.
  2:{ intros H; inversion H; subst. apply (Hone a2); [simpl; tauto |].
      now apply param_line_raises in H4. }
  discriminate.
Qed.

(** X14: on binary64 floats [to_verilog] returns a text, which starts
    with the Q-format header, exactly when [width] is not negative and the
    product [val * 2**frac_bits] of every coefficient is a finite float;
    when it raises, the exception is the one of a coefficient that
    [to_fixed] cannot convert: an OverflowError only for a product that is
    not finite (or a [2 ** frac_bits] beyond the float range), a
    ValueError only for a NaN product or a negative [width]. *)
Theorem to_verilog_failure
    (coeffs : Binary64.Coeffs) (width frac_bits : Z) :
  (0 <= width ->
   forallb (Binary64.quantizable frac_bits) (Binary64.coeff_list coeffs)
   = true ->
   exists rest : string,
     Binary64.CoeffFormatter.to_verilog coeffs width frac_bits
     = Ok (("// Biquad Filter Coefficients (Q" ++ str_int frac_bits ++ "."
            ++ str_int (width - frac_bits - 1) ++ ")") ++ nl ++ rest))
  /\ (forall e : exn,
         Binary64.CoeffFormatter.to_verilog coeffs width frac_bits = Raise e ->
         (exists v : float,
             In v (Binary64.coeff_list coeffs)
             /\ Binary64.CoeffFormatter.to_fixed width frac_bits v = Raise e)
         /\ ((e = OverflowError
              /\ forallb (Binary64.quantizable frac_bits)
                   (Binary64.coeff_list coeffs) = false)
             \/ (e = ValueError
                 /\ (forallb (Binary64.quantizable frac_bits)
                       (Binary64.coeff_list coeffs) = false
                     \/ width < 0))))
  /\ (width < 0 ->
      exists e : exn,
        Binary64.CoeffFormatter.to_verilog coeffs width frac_bits = Raise e).
Proof.
  split; [| split; [apply to_verilog_raises |]];
    destruct coeffs as [[[[b0 b1] b2] a1] a2]; unfold Binary64.coeff_list.
  - intros Hw Hall. simpl forallb in Hall.
    repeat match type of Hall with
           | (_ && _)%bool = true =>
               let H := fresh "Hq" in
               apply andb_true_iff in Hall; destruct Hall as [H Hall]
           end.
    unfold Binary64.CoeffFormatter.to_verilog.
    destruct (param_line_quantizable "B0" width frac_bits b0 Hw Hq) as [l0 ->].
    destruct (param_line_quantizable "B1" width frac_bits b1 Hw Hq0) as [l1 ->].
    destruct (param_line_quantizable "B2" width frac_bits b2 Hw Hq1) as [l2 ->].
    destruct (param_line_quantizable "A1" width frac_bits a1 Hw Hq2) as [l3 ->].
    destruct (param_line_quantizable "A2" width frac_bits a2 Hw Hq3) as [l4 ->].
    simpl bind. eexists. reflexivity.
  - intros Hw. unfold Binary64.CoeffFormatter.to_verilog,
      Binary64.CoeffFormatter.param_line, Binary64.CoeffFormatter.hex_field.
    destruct (Binary64.quantizable frac_bits b0) eqn:Hq.
    + rewrite (to_fixed_quantizable_negative_width width frac_bits b0 Hw Hq).
      eexists; reflexivity.
    + destruct (to_fixed_not_quantizable width frac_bits b0 Hq) as [-> | ->];
        eexists; reflexivity.
Qed.

(** X14 at the coefficient set of the specification's scenario 5, width 8
    with 4 fractional bits. *)
Lemma to_verilog_failure_witness :
  exists rest : string,
    Binary64.CoeffFormatter.to_verilog
      (0.5, -0.25, 0.125, -1, 0.5)%float 8 4
    = Ok (("// Biquad Filter Coefficients (Q" ++ str_int 4 ++ "."
           ++ str_int (8 - 4 - 1) ++ ")") ++ nl ++ rest).
Proof.
  apply (proj1 (to_verilog_failure (0.5, -0.25, 0.125, -1, 0.5)%float 8 4));
    [lia | vm_compute; reflexivity].
Defined.

(** The specification's scenario 5 and the failures of the encoder, on
    binary64 floats: 1024 fractional bits, an infinite and a NaN
    coefficient. *)
Example to_verilog_binary64 :
  Binary64.CoeffFormatter.to_verilog (0.5, -0.25, 0.125, -1, 0.5)%float 8 4
  = Ok ("// Biquad Filter Coefficients (Q4.3)" ++ nl
        ++ "parameter B0 = 8'h08; // 0.500000" ++ nl
        ++ "parameter B1 = 8'hFC; // -0.250000" ++ nl
        ++ "parameter B2 = 8'h02; // 0.125000" ++ nl
        ++ "parameter A1 = 8'hF0; // -1.000000" ++ nl
        ++ "parameter A2 = 8'h08; // 0.500000")
  /\ Binary64.CoeffFormatter.to_verilog
       (0.5, -0.25, 0.125, -1, 0.5)%float 18 1024
     = Raise OverflowError
  /\ Binary64.CoeffFormatter.to_verilog
       (0.5, infinity, 0.125, -1, 0.5)%float 18 16
     = Raise OverflowError
  /\ Binary64.CoeffFormatter.to_verilog
       (0.5, -0.25, nan, -1, 0.5)%float 18 16
     = Raise ValueError.
Proof. vm_compute. repeat split. Qed.

End Binary64Verilog.

(** ** The command-line driver on binary64 floats *)

Section Binary64Main.

Import PrimFloat.

Local Open Scope string_scope.

Lemma half_raises (n : Binary64.num) (e : exn) :
  Binary64.half n = Raise e -> e = OverflowError.
Proof.
  destruct n as [z | x]; simpl; [| discriminate].
  destruct (is_infinity _); intros H; now inversion H.
Qed.

Lemma to_float_raises (n : Binary64.num) (e : exn) :
  Binary64.to_float n = Raise e -> e = OverflowError.
Proof.
  destruct n as [z | x]; simpl; [| discriminate].
  unfold Binary64.float_of_int.
  destruct (is_infinity _); intros H; now inversion H.
Qed.

Lemma fdiv_num_raises (x : float) (n : Binary64.num) (e : exn) :
  Binary64.fdiv_num x n = Raise e ->
  e = ZeroDivisionError \/ e = OverflowError.
Proof.
  unfold Binary64.fdiv_num.
  destruct (Binary64.to_float n) as [y | e'] eqn:Hn; simpl bind.
  - unfold Binary64.fdiv. destruct (eqb y zero); intros H; inversion H.
    now left.
  - intros H; inversion H; subst. right.
    exact (to_float_raises n e Hn).
Qed.

Lemma fdiv_raises (x y : float) (e : exn) :
  Binary64.fdiv x y = Raise e -> e = ZeroDivisionError.
Proof.
  unfold Binary64.fdiv. destruct (eqb y zero); intros H; now inversion H.
Qed.

Lemma normalize_raises (b0 b1 b2 a0 a1 a2 : float) (e : exn) :
  Binary64.BiquadCoeffGenerator._normalize b0 b1 b2 a0 a1 a2 = Raise e ->
  e = ZeroDivisionError.
Proof.
  unfold Binary64.BiquadCoeffGenerator._normalize, Binary64.fdiv.
  destruct (eqb a0 zero); simpl bind; intros H; now inversion H.
Qed.

Lemma math_sin_raises (rt : Binary64.Runtime) (x : float) (e : exn) :
  Binary64.math_sin rt x = Raise e -> e = ValueError.
Proof.
  unfold Binary64.math_sin. destruct (is_infinity x); intros H; now inversion H.
Qed.

Lemma math_cos_raises (rt : Binary64.Runtime) (x : float) (e : exn) :
  Binary64.math_cos rt x = Raise e -> e = ValueError.
Proof.
  unfold Binary64.math_cos. destruct (is_infinity x); intros H; now inversion H.
Qed.

Lemma pow10_raises (rt : Binary64.Runtime) (y : float) (e : exn) :
  Binary64.pow10 rt y = Raise e -> e = OverflowError.
Proof.
  unfold Binary64.pow10.
  destruct (eqb y zero); [discriminate |].
  destruct (is_nan y); [discriminate |].
  destruct (is_infinity y); [discriminate |].
  destruct (is_infinity _); intros H; now inversion H.
Qed.

(** One step of a design method: the bound computation returned, or the
    exception it raised is one of the three float errors. *)
Ltac design_step :=
  match goal with
  | |- match ?m with _ => _ end = Raise ?e -> _ =>
      let H := fresh "Hstep" in
      destruct m eqn:H;
      [| intros He; inversion He; subst;
         first [ apply fdiv_num_raises in H
               | apply fdiv_raises in H
               | apply math_sin_raises in H
               | apply math_cos_raises in H
               | apply pow10_raises in H ];
         tauto ]
  | |- Binary64.BiquadCoeffGenerator._normalize _ _ _ _ _ _ = Raise _ -> _ =>
      let H := fresh "Hstep" in
      intros H; apply normalize_raises in H; tauto
  end.

(** The design raises nothing but the three float errors. *)
Lemma design_raises (rt : Binary64.Runtime) (args : Binary64.Args) (e : exn) :
  Binary64.design rt args = Raise e ->
  e = ZeroDivisionError \/ e = ValueError \/ e = OverflowError.
Proof.
  unfold Binary64.design.
  destruct (Binary64.filter_type args);
    unfold Binary64.BiquadCoeffGenerator.lowpass,
      Binary64.BiquadCoeffGenerator.highpass,
      Binary64.BiquadCoeffGenerator.bandpass,
      Binary64.BiquadCoeffGenerator.bandstop,
      Binary64.BiquadCoeffGenerator.peaking;
    cbv beta zeta delta [bind]; repeat design_step.
Qed.

(** Only the Verilog encoder can raise, and only a ValueError or an
    OverflowError. *)
Lemma format_output_raises
    (rt : Binary64.Runtime) (args : Binary64.Args) (coeffs : Binary64.Coeffs)
    (e : exn) :
  Binary64.format_output rt args coeffs = Raise e ->
  Binary64.output args = verilog
  /\ Binary64.CoeffFormatter.to_verilog coeffs (Binary64.width args)
       (Binary64.frac_bits args) = Raise e
  /\ (e = ValueError \/ e = OverflowError).
Proof.
  unfold Binary64.format_output.
  destruct (Binary64.output args); try discriminate.
  intros H. split; [reflexivity | split; [exact H |]].
  destruct (to_verilog_raises coeffs _ _ e H) as [_ [[-> _] | [-> _]]]; auto.
Qed.

(** Frequencies and Q factors strictly inside the valid range pass the two
    tests. *)
Lemma accepted_inside (args : Binary64.Args) (nyquist : float) :
  (0 <? Binary64.freq args)%float = true ->
  (Binary64.freq args <? nyquist)%float = true ->
  (0 <? Binary64.q args)%float = true ->
  Binary64.freq_rejected args nyquist = false
  /\ Binary64.q_rejected args = false.
Proof.
  intros Hf0 Hfn Hq. unfold Binary64.freq_rejected, Binary64.q_rejected.
  now rewrite (ltb_not_leb _ _ Hf0), (ltb_not_leb _ _ Hfn), (ltb_not_leb _ _ Hq).
Qed.

Lemma format_output_returns
    (rt : Binary64.Runtime) (args : Binary64.Args) (coeffs : Binary64.Coeffs) :
  (Binary64.output args = verilog ->
   0 <= Binary64.width args
   /\ forallb (Binary64.quantizable (Binary64.frac_bits args))
        (Binary64.coeff_list coeffs) = true) ->
  exists text : string, Binary64.format_output rt args coeffs = Ok text.
Proof.
  intros Hv.
  destruct (Binary64.format_output rt args coeffs) as [text | e] eqn:Hfmt;
    [now exists text |].
  destruct (format_output_raises rt args coeffs e Hfmt) as (Hout & Hraise & _).
  destruct (Hv Hout) as [Hw Hall].
  destruct (to_verilog_raises coeffs _ _ e Hraise)
    as [_ [[_ Hnot] | [_ [Hnot | Hneg]]]]; try congruence; lia.
Qed.

(** C4, as stated, fails: [--freq 1000 --width -1] passes the validation
    (0 < 1000 < 24000 and q = 0.707 > 0), yet [1 << width] raises a
    ValueError in [to_fixed], nothing catches it, and the process ends with
    status 1; and [--filter-type peaking --freq 1000 --gain -13000
    --output c] passes it too, [10.0 ** (gain / 40.0)] underflows to 0.0
    and [alpha / A] raises ZeroDivisionError. *)
Lemma accepted_invocation_exits_1 :
  (0 <? 1000)%float = true /\ (1000 <? 24000)%float = true
  /\ (0 <? 0x1.69fbe76c8b439p-1)%float = true
  /\ Binary64.half (Binary64.Int 48000) = Ok 24000%float
  /\ Binary64.main Binary64.sample_runtime
       (Binary64.invocation lowpass 1000%float 0%float verilog (-1))
     = Binary64.Uncaught ValueError
  /\ Binary64.main Binary64.sample_runtime
       (Binary64.invocation peaking 1000%float (-13000)%float c 18)
     = Binary64.Uncaught ZeroDivisionError.
Proof. vm_compute. repeat split. Qed.

(** C4, amended: a frequency that is [<= 0] or [>= sample_rate / 2] and a
    Q factor that is [<= 0] each end the invocation with status 1 and a
    diagnostic on the error stream (the frequency's when both are wrong),
    nothing on the output stream and no file, before any coefficient is
    computed; a frequency strictly inside with a positive Q factor passes
    both tests, and the invocation then ends as the design, the encoder and
    the opening of the file decide: with status 0 when none of them raises
    (for the Verilog format that is a width that is not negative and a
    finite product [val * 2**frac_bits] for every coefficient), with the
    uncaught exception of the first that does otherwise. *)
Theorem main_validation
    (rt : Binary64.Runtime) (args : Binary64.Args) (nyquist : float) :
  Binary64.half (Binary64.sample_rate args) = Ok nyquist ->
  ((Binary64.freq args <=? 0)%float = true
   \/ (nyquist <=? Binary64.freq args)%float = true ->
   Binary64.main rt args
   = Binary64.Exit 1 EmptyString
       ("Error: Frequency must be between 0 and "
        ++ Binary64.float_str rt nyquist ++ " Hz" ++ nl)
       None)
  /\ ((0 <? Binary64.freq args)%float = true ->
      (Binary64.freq args <? nyquist)%float = true ->
      (Binary64.q args <=? 0)%float = true ->
      Binary64.main rt args
      = Binary64.Exit 1 EmptyString ("Error: Q factor must be positive" ++ nl)
          None)
  /\ ((Binary64.q args <=? 0)%float = true ->
      exists err : string,
        Binary64.main rt args = Binary64.Exit 1 EmptyString err None)
  /\ ((0 <? Binary64.freq args)%float = true ->
      (Binary64.freq args <? nyquist)%float = true ->
      (0 <? Binary64.q args)%float = true ->
      Binary64.accepted args nyquist = true
      /\ match Binary64.design rt args with
         | Raise e => Binary64.main rt args = Binary64.Uncaught e
         | Ok coeffs =>
             match Binary64.format_output rt args coeffs with
             | Raise e =>
                 Binary64.main rt args = Binary64.Uncaught e
                 /\ Binary64.output args = verilog
             | Ok text =>
                 match file_given (Binary64.file args) with
                 | None =>
                     Binary64.main rt args
                     = Binary64.Exit 0 (text ++ nl) EmptyString None
                 | Some path =>
                     if Binary64.can_open rt path then
                       Binary64.main rt args
                       = Binary64.Exit 0
                           ("Coefficients written to " ++ path ++ nl)
                           EmptyString (Some (path, text))
                     else Binary64.main rt args = Binary64.Uncaught OSError
                 end
             end
         end
      /\ forall coeffs : Binary64.Coeffs,
          Binary64.design rt args = Ok coeffs ->
          (Binary64.output args = verilog ->
           0 <= Binary64.width args
           /\ forallb (Binary64.quantizable (Binary64.frac_bits args))
                (Binary64.coeff_list coeffs) = true) ->
          (forall path : string,
              file_given (Binary64.file args) = Some path ->
              Binary64.can_open rt path = true) ->
          exists (out : string) (written : option (string * string)),
            Binary64.main rt args = Binary64.Exit 0 out EmptyString written).
Proof.
  intros Hhalf. unfold Binary64.main. rewrite Hhalf.
  split; [| split; [| split]].
  - intros Hbad. unfold Binary64.freq_rejected.
    destruct Hbad as [-> | ->]; [reflexivity |].
    now rewrite orb_true_r.
  - intros Hf0 Hfn Hq.
    unfold Binary64.freq_rejected, Binary64.q_rejected.
    now rewrite (ltb_not_leb _ _ Hf0), (ltb_not_leb _ _ Hfn), Hq.
  - intros Hq. unfold Binary64.q_rejected. rewrite Hq.
    destruct (Binary64.freq_rejected args nyquist); eexists; reflexivity.
  - intros Hf0 Hfn Hq.
    destruct (accepted_inside args nyquist Hf0 Hfn Hq) as [Hfr Hqr].
    unfold Binary64.accepted. rewrite Hfr, Hqr.
    split; [reflexivity | split].
    + destruct (Binary64.design rt args) as [coeffs | e]; [| reflexivity].
      destruct (Binary64.format_output rt args coeffs) as [text | e] eqn:Hfmt.
      * destruct (file_given (Binary64.file args)) as [path |];
          [| reflexivity].
        destruct (Binary64.can_open rt path); reflexivity.
      * split; [reflexivity |].
        exact (proj1 (format_output_raises rt args coeffs e Hfmt)).
    + intros coeffs -> Hv Hopen.
      destruct (format_output_returns rt args coeffs Hv) as [text ->].
      destruct (file_given (Binary64.file args)) as [path |].
      * rewrite (Hopen path eq_refl). do 2 eexists. reflexivity.
      * do 2 eexists. reflexivity.
Qed.

(** The amended C4 at [--freq 1000]: the invocation ends with status 0. *)
Lemma main_validation_witness :
  exists (out : string) (written : option (string * string)),
    Binary64.main Binary64.sample_runtime
      (Binary64.invocation lowpass 1000%float 0%float verilog 18)
    = Binary64.Exit 0 out EmptyString written.
Proof.
  destruct (main_validation Binary64.sample_runtime
              (Binary64.invocation lowpass 1000%float 0%float verilog 18)
              24000%float eq_refl) as (_ & _ & _ & H).
  destruct (H eq_refl eq_refl eq_refl) as (_ & _ & Hexit).
  apply (Hexit (0x1.00a4dd48fd731p-8, 0x1.00a4dd48fd731p-7,
                0x1.00a4dd48fd731p-8, -0x1.d0b8acc7a9e43p+0,
                0x1.a97680799bb40p-1)%float).
  - vm_compute. reflexivity.
  - intros _. split; [simpl; lia | vm_compute; reflexivity].
  - intros path. discriminate.
Defined.

(** X15: on binary64 floats an invocation ends in one of three ways.
    With status 0: it passed both tests, the design and the encoder
    returned, nothing went to the error stream, and the document went to
    the output stream or, with the confirmation line there, to the file at
    the given path.  With status 1 after a diagnostic: it failed a test,
    nothing went to the output stream and no file was written.  With an
    uncaught exception: an OverflowError of [sample_rate / 2] for an [int]
    beyond the float range, or, after both tests were passed, one of the
    three float errors raised by the design, a ValueError or an
    OverflowError of the Verilog encoder (no other format raises), or the
    OSError of a file that cannot be opened; a ZeroDivisionError comes from
    the design alone. *)
Theorem main_outcomes (rt : Binary64.Runtime) (args : Binary64.Args) :
  match Binary64.main rt args with
  | Binary64.Exit code out err written =>
      exists nyquist : float,
        Binary64.half (Binary64.sample_rate args) = Ok nyquist
        /\ ((code = 0 /\ err = EmptyString
             /\ Binary64.accepted args nyquist = true
             /\ exists (coeffs : Binary64.Coeffs) (text : string),
                 Binary64.design rt args = Ok coeffs
                 /\ Binary64.format_output rt args coeffs = Ok text
                 /\ match written with
                    | None =>
                        file_given (Binary64.file args) = None
                        /\ out = text ++ nl
                    | Some (path, content) =>
                        file_given (Binary64.file args) = Some path
                        /\ Binary64.can_open rt path = true
                        /\ content = text
                        /\ out = "Coefficients written to " ++ path ++ nl
                    end)
            \/ (code = 1 /\ out = EmptyString /\ written = None
                /\ Binary64.accepted args nyquist = false))
  | Binary64.Uncaught e =>
      (Binary64.half (Binary64.sample_rate args) = Raise e
       /\ e = OverflowError)
      \/ (exists nyquist : float,
             Binary64.half (Binary64.sample_rate args) = Ok nyquist
             /\ Binary64.accepted args nyquist = true
             /\ ((Binary64.design rt args = Raise e
                  /\ (e = ZeroDivisionError \/ e = ValueError
                      \/ e = OverflowError))
                 \/ (exists coeffs : Binary64.Coeffs,
                        Binary64.design rt args = Ok coeffs
                        /\ Binary64.format_output rt args coeffs = Raise e
                        /\ Binary64.output args = verilog
                        /\ (e = ValueError \/ e = OverflowError))
                 \/ (exists (coeffs : Binary64.Coeffs) (text path : string),
                        Binary64.design rt args = Ok coeffs
                        /\ Binary64.format_output rt args coeffs = Ok text
                        /\ file_given (Binary64.file args) = Some path
                        /\ Binary64.can_open rt path = false
                        /\ e = OSError)))
  end.
Proof.
  unfold Binary64.main, Binary64.accepted.
  destruct (Binary64.half (Binary64.sample_rate args)) as [nyquist | e]
    eqn:Hhalf.
  2:{ left. split; [reflexivity |]. exact (half_raises _ e Hhalf). }
  destruct (Binary64.freq_rejected args nyquist) eqn:Hfr.
  { exists nyquist. rewrite Hfr. split; [reflexivity |]. right.
    now repeat split. }
  destruct (Binary64.q_rejected args) eqn:Hqr.
  { exists nyquist. rewrite Hfr. split; [reflexivity |]. right.
    now repeat split. }
  destruct (Binary64.design rt args) as [coeffs | e] eqn:Hdesign.
  2:{ right. exists nyquist. rewrite Hfr.
      split; [reflexivity |]. split; [reflexivity |].
      left. split; [reflexivity |]. exact (design_raises rt args e Hdesign). }
  destruct (Binary64.format_output rt args coeffs) as [text | e] eqn:Hfmt.
  2:{ right. exists nyquist. rewrite Hfr.
      split; [reflexivity |]. split; [reflexivity |].
      right. left. exists coeffs.
      destruct (format_output_raises rt args coeffs e Hfmt) as (Hout & _ & He).
      now repeat split. }
  destruct (file_given (Binary64.file args)) as [path |] eqn:Hfile.
  - destruct (Binary64.can_open rt path) eqn:Hopen.
    + exists nyquist. rewrite Hfr. split; [reflexivity |]. left.
      split; [reflexivity | split; [reflexivity | split; [reflexivity |]]].
      exists coeffs, text. now repeat split.
    + right. exists nyquist. rewrite Hfr.
      split; [reflexivity |]. split; [reflexivity |].
      right. right. exists coeffs, text, path. now repeat split.
  - exists nyquist. rewrite Hfr. split; [reflexivity |]. left.
    split; [reflexivity | split; [reflexivity | split; [reflexivity |]]].
    exists coeffs, text. now repeat split.
Qed.

(** A frequency that is NaN passes both tests: [--freq nan --output c]
    ends with status 0 and prints NaN coefficients. *)
Example nan_frequency_is_accepted :
  Binary64.main Binary64.sample_runtime
    (Binary64.invocation lowpass nan 0%float c 18)
  = Binary64.Exit 0
      ("// Biquad Filter Coefficients" ++ nl
       ++ "const float b_coeffs[3] = {         nan,          nan,          nan};"
       ++ nl
       ++ "const float a_coeffs[2] = {         nan,          nan};" ++ nl)
      EmptyString None.
Proof. vm_compute. reflexivity. Qed.

End Binary64Main.

(** ** The two readings of [int] agree *)

Section Binary64Refinement.

Import PrimFloat SpecFloat FloatOps.

Lemma Zfloor_quot (a d : Z) : 0 < d -> Zfloor (IZR a / IZR d) = a / d.
Proof.
  intros Hd. apply Zfloor_eq.
  pose proof (Z.div_mod a d ltac:(lia)) as Ha.
  pose proof (Z.mod_pos_bound a d Hd) as [Hr0 Hr1].
  apply IZR_le in Hr0. apply IZR_lt in Hr1. apply IZR_lt in Hd.
  assert (IZR a = IZR d * IZR (a / d) + IZR (a mod d))%R as ->
      by (rewrite <- mult_IZR, <- plus_IZR; now f_equal).
  assert ((IZR d * IZR (a / d) + IZR (a mod d)) / IZR d
          = IZR (a / d) + IZR (a mod d) / IZR d)%R as -> by (field; lra).
  assert (0 <= IZR (a mod d) / IZR d < 1)%R as [H0 H1].
  { split.
    - apply Rmult_le_pos; [lra |]. apply Rlt_le, Rinv_0_lt_compat. lra.
    - apply (Rmult_lt_reg_r (IZR d)); [lra |].
      unfold Rdiv. rewrite Rmult_assoc, Rinv_l by lra. lra. }
  simpl in *. lra.
Qed.

Lemma int_of_float_IZR (z : Z) : int_of_float (IZR z) = z.
Proof. apply int_of_float_eq. split; intros; lra. Qed.

Lemma int_of_float_quot (m : positive) (d : Z) :
  0 < d ->
  int_of_float (IZR (Z.pos m) * / IZR d) = Z.pos m / d
  /\ int_of_float (IZR (Z.neg m) * / IZR d) = - (Z.pos m / d).
Proof.
  intros Hd.
  assert (0 <= IZR (Z.pos m) * / IZR d)%R as Hpos.
  { apply Rmult_le_pos; [apply IZR_le; lia |].
    apply Rlt_le, Rinv_0_lt_compat, IZR_lt. lia. }
  split.
  - rewrite int_of_float_nonneg by exact Hpos. now apply Zfloor_quot.
  - change (Z.neg m) with (- Z.pos m). rewrite opp_IZR.
    replace (- IZR (Z.pos m) * / IZR d)%R
      with (- (IZR (Z.pos m) * / IZR d))%R by ring.
    rewrite int_of_float_nonpos by lra.
    rewrite ZceilN. f_equal. now apply Zfloor_quot.
Qed.

(** The integer part that [int] takes of a float is the integer part,
    rounding toward zero, of the real number the float stands for. *)
Lemma trunc_value (x : float) :
  Binary64.trunc x = int_of_float (Binary64.value x).
Proof.
  unfold Binary64.trunc, Binary64.value.
  destruct (Prim2SF x) as [s | s | | s m e];
    try (symmetry; apply (int_of_float_IZR 0)).
  destruct e as [| k | k].
  - simpl powerRZ. rewrite Rmult_1_r, int_of_float_IZR.
    now destruct s.
  - rewrite Z.shiftl_mul_pow2 by lia.
    change (powerRZ 2 (Z.pos k)) with (IZR 2 ^ Pos.to_nat k)%R.
    rewrite pow_IZR, positive_nat_Z, <- mult_IZR, int_of_float_IZR.
    destruct s; [| reflexivity].
    change (Z.neg m) with (- Z.pos m). ring.
  - rewrite Z.shiftl_div_pow2 by lia. rewrite powerRZ_2_neg.
    change (- Z.neg k) with (Z.pos k).
    assert (0 < 2 ^ Z.pos k) as Hd by (apply Z.pow_pos_nonneg; lia).
    destruct (int_of_float_quot m (2 ^ Z.pos k) Hd) as [Hp Hn].
    destruct s; [now rewrite Hn | now rewrite Hp].
Qed.

(** X20: whenever [to_fixed] returns on binary64 floats, [width] is not
    negative, the product [val * 2**frac_bits] it computed is a finite
    float, and the pattern is the integer part, rounding toward zero, of
    the real number that product stands for, reduced modulo [2^width]: the
    pattern the exact-arithmetic [to_fixed] gives at that number. *)
Theorem to_fixed_refines
    (width frac_bits : Z) (v : float) (p : Z) :
  Binary64.CoeffFormatter.to_fixed width frac_bits v = Ok p ->
  exists scaled : float,
    Binary64.product v frac_bits = Ok scaled
    /\ is_finite scaled = true
    /\ 0 <= width
    /\ p = int_of_float (Binary64.value scaled) mod 2 ^ width
    /\ CoeffFormatter.to_fixed width 0 (Binary64.value scaled) = Ok p.
Proof.
  unfold Binary64.CoeffFormatter.to_fixed.
  destruct (Binary64.product v frac_bits) as [scaled |];
    simpl bind; [| discriminate].
  unfold Binary64.int_of_float.
  destruct (is_nan scaled) eqn:Hn; [discriminate |].
  destruct (is_infinity scaled) eqn:Hi; [discriminate |]. simpl bind.
  destruct (Z_lt_le_dec width 0) as [Hneg | Hw].
  { now rewrite (lshift1_neg width Hneg). }
  rewrite (lshift1_nonneg width Hw). simpl bind.
  rewrite land_mask_mod by assumption. rewrite trunc_value.
  intros H; inversion H; subst.
  exists scaled.
  split; [reflexivity |].
  split; [unfold is_finite; now rewrite Hn, Hi |].
  split; [assumption | split; [reflexivity |]].
  rewrite to_fixed_mod by assumption.
  unfold pow2. simpl powerRZ. now rewrite Rmult_1_r.
Qed.

(** X20 at the coefficient -1/32, width 8, 4 fractional bits: the pattern
    is 0, not the 255 of a floor. *)
Lemma to_fixed_refines_witness :
  exists scaled : float,
    Binary64.product (-0x1p-5)%float 4 = Ok scaled
    /\ is_finite scaled = true
    /\ 0 <= 8
    /\ 0 = int_of_float (Binary64.value scaled) mod 2 ^ 8
    /\ CoeffFormatter.to_fixed 8 0 (Binary64.value scaled) = Ok 0.
Proof.
  apply (to_fixed_refines 8 4 (-0x1p-5)%float 0).
  vm_compute. reflexivity.
Defined.

End Binary64Refinement.
